(** * The content and photo store of server.js

    A shallow embedding of the request handlers of [server.js] and of the
    fragment of JavaScript they run on.

    - JSON data is the inductive type [value]; an object is the list of its
      own fields, in order.  Numbers are integers.  [VNaN] is the one number
      that is not JSON: [parseInt] produces it and [JSON.stringify] writes it
      as [null].
    - Strings are UTF-8 byte strings.
    - A JavaScript expression evaluates to a [completion]: it returns, it
      throws, or it leaves the fragment modelled here ([Unmodelled]: a
      property of an array or of a primitive, a number that is not an
      integer, ...).  Nothing is proved about requests that end in
      [Unmodelled].
    - The data file is kept as what [JSON.parse] makes of its text.
    - [readContent] hands out the global object [defaultContent] itself when
      the data file is missing or unparsable; the handlers update the object
      they were handed, so the global is part of the state. *)

From Stdlib Require Import ZArith String Ascii List Bool Lia.
From Stdlib Require Import DecimalString DecimalZ.
From stdpp Require Import gmap strings sorting.
Import ListNotations.

Local Open Scope string_scope.
Local Open Scope list_scope.

(** ** Values *)

Unset Elimination Schemes.
Inductive value : Type :=
| VNull
| VBool (b : bool)
| VNum (n : Z)
| VNaN
| VStr (s : string)
| VArr (items : list value)
| VObj (fields : list (string * value)).
Set Elimination Schemes.

(** What an expression can evaluate to: [undefined], a piece of data, or
    something inherited from [Object.prototype] (a function, or the
    prototype object itself for [__proto__]). *)
Inductive jsval : Type :=
| Undefined
| Data (v : value)
| Inherited (name : string).

Inductive error : Type := TypeError | SyntaxError | SystemError.

Inductive completion (A : Type) : Type :=
| Returns (a : A)
| Throws (e : error)
| Unmodelled.
Arguments Returns {A} a.
Arguments Throws {A} e.
Arguments Unmodelled {A}.

#[global] Instance completion_ret : MRet completion := fun A a => Returns a.
#[global] Instance completion_bind : MBind completion := fun A B k c =>
  match c with
  | Returns a => k a
  | Throws e => Throws e
  | Unmodelled => Unmodelled
  end.

(** ** The fragment of JavaScript the handlers use *)

Module JS.

(** [!!x] *)
Definition truthy (x : jsval) : bool :=
  match x with
  | Undefined => false
  | Inherited _ => true
  | Data VNull => false
  | Data (VBool b) => b
  | Data (VNum n) => negb (n =? 0)%Z
  | Data VNaN => false
  | Data (VStr s) => negb (s =? "")
  | Data (VArr _) => true
  | Data (VObj _) => true
  end.

(** [x || y] *)
Definition or (x y : jsval) : jsval := if truthy x then x else y.

(** [x === s] for a string [s] *)
Definition strict_eq_string (x : jsval) (s : string) : bool :=
  match x with
  | Data (VStr t) => t =? s
  | _ => false
  end.

(** The names every object inherits from [Object.prototype]. *)
Definition Object_prototype : list string :=
  [ "constructor"; "__defineGetter__"; "__defineSetter__"; "hasOwnProperty";
    "__lookupGetter__"; "__lookupSetter__"; "isPrototypeOf";
    "propertyIsEnumerable"; "toString"; "valueOf"; "__proto__";
    "toLocaleString" ].

Fixpoint own (fs : list (string * value)) (k : string) : option value :=
  match fs with
  | [] => None
  | (k', v) :: rest => if k' =? k then Some v else own rest k
  end.

(** [o[k]] on an object with own fields [fs] *)
Definition get (fs : list (string * value)) (k : string) : jsval :=
  match own fs k with
  | Some v => Data v
  | None => if existsb (String.eqb k) Object_prototype then Inherited k
            else Undefined
  end.

(** [o[k] = v] on an object with own fields [fs]: an own field is
    overwritten in place, a new one is added last.  (Assigning to an
    inherited name of [Object.prototype] is not used by the handlers.) *)
Fixpoint set (fs : list (string * value)) (k : string) (v : value)
  : list (string * value) :=
  match fs with
  | [] => [(k, v)]
  | (k', v') :: rest =>
      if k' =? k then (k, v) :: rest else (k', v') :: set rest k v
  end.

(** [Object.prototype.hasOwnProperty.call(o, k)] *)
Definition hasOwnProperty (fs : list (string * value)) (k : string) : bool :=
  match own fs k with Some _ => true | None => false end.

(** The own fields of the object a property access goes to.  [null] has no
    properties: reading one throws.  Arrays and primitives have properties
    of their own and of their prototypes: not modelled. *)
Definition fields_of (v : value) : completion (list (string * value)) :=
  match v with
  | VNull => Throws TypeError
  | VObj fs => Returns fs
  | _ => Unmodelled
  end.

(** [v[k]] *)
Definition member (v : value) (k : string) : completion jsval :=
  fs ← fields_of v; mret (get fs k).

(** [Array.isArray(x)] *)
Definition Array_isArray (x : jsval) : bool :=
  match x with Data (VArr _) => true | _ => false end.

(** [ToNumber], where the result is an integer. *)
Definition ToNumber (x : jsval) : completion Z :=
  match x with
  | Data (VNum n) => Returns n
  | Data (VBool b) => Returns (if b then 1 else 0)%Z
  | Data VNull => Returns 0%Z
  | _ => Unmodelled
  end.

(** *** parseInt(s, 10) *)

(** The length in bytes of the white space or line terminator a UTF-8
    string starts with, 0 when it starts with none: TAB, LF, VT, FF, CR,
    SP, U+00A0, U+1680, U+2000..U+200A, U+2028, U+2029, U+202F, U+205F,
    U+3000, U+FEFF. *)
Definition StrWhiteSpaceChar (s : string) : nat :=
  match map nat_of_ascii (list_ascii_of_string (substring 0 3 s)) with
  | c :: rest =>
      if (c =? 9) || (c =? 10) || (c =? 11) || (c =? 12) || (c =? 13)
         || (c =? 32) then 1
      else match c, rest with
      | 194, 160 :: _ => 2
      | 225, [154; 128] => 3
      | 226, [128; d] =>
          if ((128 <=? d) && (d <=? 138)) || (d =? 168) || (d =? 169)
             || (d =? 175) then 3 else 0
      | 226, [129; 159] => 3
      | 227, [128; 128] => 3
      | 239, [187; 191] => 3
      | _, _ => 0
      end
  | [] => 0
  end%nat.

Fixpoint drop_bytes (n : nat) (s : string) : string :=
  match n, s with
  | S n', String _ rest => drop_bytes n' rest
  | _, _ => s
  end.

(** Strip leading white space.  The fuel is the length of the string. *)
Fixpoint trimStart_fuel (fuel : nat) (s : string) : string :=
  match fuel with
  | O => s
  | S fuel' =>
      match StrWhiteSpaceChar s with
      | O => s
      | n => trimStart_fuel fuel' (drop_bytes n s)
      end
  end.

Definition trimStart (s : string) : string :=
  trimStart_fuel (String.length s) s.

Definition digit (c : ascii) : option Z :=
  let n := Z.of_nat (nat_of_ascii c) in
  if (48 <=? n)%Z && (n <=? 57)%Z then Some (n - 48)%Z else None.

(** The value of the longest prefix of decimal digits, [None] when the
    string starts with no digit. *)
Fixpoint digits (s : string) (acc : option Z) : option Z :=
  match s with
  | String c rest =>
      match digit c with
      | Some d => digits rest (Some (10 * default 0 acc + d))%Z
      | None => acc
      end
  | EmptyString => acc
  end.

(** [parseInt(s, 10)]: [None] is [NaN]. *)
Definition parseInt (s : string) : option Z :=
  let s := trimStart s in
  let '(sign, s) :=
    match s with
    | String "-" rest => ((-1)%Z, rest)
    | String "+" rest => (1%Z, rest)
    | _ => (1%Z, s)
    end in
  match digits s None with
  | None => None
  | Some n => Some (sign * n)%Z
  end.

(** *** Array.prototype.sort, findIndex, splice *)

Section Arrays.
Context {A : Type}.

(** [x] goes before the first element the comparator puts after it. *)
Fixpoint sort_insert (cmp : A → A → completion Z) (x : A) (l : list A)
  : completion (list A) :=
  match l with
  | [] => Returns [x]
  | y :: rest =>
      c ← cmp x y;
      if (c >? 0)%Z
      then rest' ← sort_insert cmp x rest; mret (y :: rest')
      else mret (x :: y :: rest)
  end.

(** A stable sort.  The comparator runs on every element as soon as there
    are two; with one element or none it does not run.  When it throws,
    the array is left as it was. *)
Fixpoint sort (cmp : A → A → completion Z) (l : list A)
  : completion (list A) :=
  match l with
  | [] => Returns []
  | x :: rest => sorted ← sort cmp rest; sort_insert cmp x sorted
  end.

(** [l.findIndex(p)]: [None] is -1. *)
Fixpoint findIndex (p : A → completion bool) (l : list A)
  : completion (option nat) :=
  match l with
  | [] => Returns None
  | x :: rest =>
      b ← p x;
      if b : bool then mret (Some 0%nat)
      else i ← findIndex p rest; mret (S <$> i)
  end.

(** [l.splice(index, 1)] *)
Definition splice1 (index : nat) (l : list A) : list A :=
  take index l ++ drop (S index) l.
End Arrays.

(** *** JSON *)

(** [JSON.parse(JSON.stringify(v))]: [NaN] is written as [null]. *)
Fixpoint revive (v : value) : value :=
  match v with
  | VNaN => VNull
  | VArr items => VArr (map revive items)
  | VObj fields => VObj (map (fun kv => (fst kv, revive (snd kv))) fields)
  | _ => v
  end.

(** The text of a file, up to what [JSON.parse] makes of it. *)
Inductive text : Type :=
| Garbled (raw : string)   (* JSON.parse throws a SyntaxError *)
| Encodes (v : value).     (* JSON.parse returns v *)

Definition JSON_stringify (v : value) : text := Encodes (revive v).

Definition JSON_parse (t : text) : completion value :=
  match t with
  | Garbled _ => Throws SyntaxError
  | Encodes v => Returns v
  end.

(** What [res.json(x)] puts on the wire, as the client parses it: no body
    for a function or [undefined], [{}] for [Object.prototype]. *)
Definition wire (x : jsval) : option value :=
  match x with
  | Undefined => None
  | Data v => Some (revive v)
  | Inherited name => if name =? "__proto__" then Some (VObj []) else None
  end.

End JS.

(** ** The server *)

(** A name in the uploads directory: a file that [fs.unlinkSync] removes,
    or an entry on which it fails (a directory, a file the process may not
    remove). *)
Inductive node : Type := File | Locked.

(** The state the handlers share: the data file [DATA_FILE] ([None] while
    it does not exist), the directory [UPLOADS_DIR], and the own fields of
    the global object [defaultContent]. *)
Record state : Type := State {
  data_file : option JS.text;
  uploads : gmap string node;
  defaultContent : list (string * value)
}.

Definition with_data_file (t : JS.text) (st : state) : state :=
  State (Some t) (uploads st) (defaultContent st).
Definition with_uploads (u : gmap string node) (st : state) : state :=
  State (data_file st) u (defaultContent st).
Definition with_defaultContent (fs : list (string * value)) (st : state)
  : state :=
  State (data_file st) (uploads st) fs.

(** The object literal [defaultContent] is bound to when the process
    starts. *)
Definition initial_defaultContent : list (string * value) :=
  [ ("about", VObj
      [ ("tagline", VStr "Professional tagline");
        ("headline", VStr "Bold, unapologetic and unforgettable.");
        ("intro", VStr "Use this area for a concise intro blurb. Explain who you are, what you offer, and why clients should want to work with you.");
        ("paragraphs", VArr
          [ VStr "Use this section to tell your story in a little more depth.";
            VStr "Mention your personality, boundaries, strengths, and how you want clients to feel." ]);
        ("meta", VObj
          [ ("baseCity", VStr "Your City, ST");
            ("bookingStyle", VStr "Pre-booked only");
            ("sessionLength", VStr "1–4 hours (longer by request)");
            ("note", VStr "Screening required for new clients") ]);
        ("tags", VArr
          [ VStr "Blunt but kind"; VStr "Low drama"; VStr "Straightforward";
            VStr "Respect is non-negotiable" ]) ]);
    ("services", VArr
      [ VObj
          [ ("id", VStr "standard");
            ("name", VStr "Standard session");
            ("duration", VStr "60 minutes");
            ("rate", VStr "$XXX");
            ("description", VStr "Brief description of what’s included in a standard session: your energy, boundaries, and expectations.") ];
        VObj
          [ ("id", VStr "extended");
            ("name", VStr "Extended session");
            ("duration", VStr "90–120 minutes");
            ("rate", VStr "$XXX–$XXX");
            ("description", VStr "Longer time together, slower pace, and space to actually relax.") ];
        VObj
          [ ("id", VStr "evening");
            ("name", VStr "Evening / long-form booking");
            ("duration", VStr "3+ hours");
            ("rate", VStr "Custom");
            ("description", VStr "Dinner, events, or longer experiences. Outline your minimum, typical structure, and any special considerations.") ] ]);
    ("availability", VObj
      [ ("weekly", VArr
          [ VObj [ ("label", VStr "Mon – Thu"); ("time", VStr "Evenings only");
                   ("status", VStr "limited") ];
            VObj [ ("label", VStr "Fri – Sat");
                   ("time", VStr "Afternoon & evening");
                   ("status", VStr "open") ];
            VObj [ ("label", VStr "Sunday"); ("time", VStr "By special request");
                   ("status", VStr "unavailable") ] ]);
        ("note", VStr "This is just a visual guide. Confirmed times are always shared privately after screening.");
        ("instructions", VStr "Example: For safety and boundaries, I do not meet same-day requests from new clients.") ]);
    ("photos", VArr []);
    ("contact", VObj
      [ ("email", VStr "youremail@example.com");
        ("preferredFirstContact", VStr "Email with basic screening info. No explicit or graphic messages.");
        ("responseTime", VStr "Within 24–48 hours for respectful, complete inquiries.") ]) ].

(** The state of a process that has just started on an installation without
    data file. *)
Definition fresh : state := State None ∅ initial_defaultContent.

(** *** Reading and writing the content *)

(** The object a handler holds in [content]: the global [defaultContent]
    itself, or the object [JSON.parse] has just built for this request. *)
Inductive ref : Type :=
| TheDefault
| Parsed (v : value).

Definition deref (st : state) (r : ref) : value :=
  match r with
  | TheDefault => VObj (defaultContent st)
  | Parsed v => v
  end.

(** The handler has changed the fields of the object it holds to [fs]:
    when that object is the global, the global has changed. *)
Definition mutate (r : ref) (fs : list (string * value)) (st : state)
  : state :=
  match r with
  | TheDefault => with_defaultContent fs st
  | Parsed _ => st
  end.

Definition writeContent (content : value) (st : state) : state :=
  with_data_file (JS.JSON_stringify content) st.

Definition readContent (st : state) : ref * state :=
  match data_file st with
  | None =>
      (TheDefault, with_data_file (JS.JSON_stringify (VObj (defaultContent st))) st)
  | Some raw =>
      match JS.JSON_parse raw with
      | Returns v => (Parsed v, st)
      | _ =>
          (TheDefault,
           with_data_file (JS.JSON_stringify (VObj (defaultContent st))) st)
      end
  end.

(** *** Responses *)

Record reply : Type := Reply { status : nat; body : option value }.

(** What a request ends in: a reply, an exception no handler catches
    (Express answers 500), or [Unmodelled]. *)
Definition response : Type := completion reply.

Definition res_json (x : jsval) : response := Returns (Reply 200 (JS.wire x)).
Definition res_status_json (code : nat) (x : value) : response :=
  Returns (Reply code (JS.wire (Data x))).

Definition error_body (message : string) : value :=
  VObj [("error", VStr message)].

(** Continue with the value of an expression; when it throws, the
    exception leaves the handler. *)
Definition attempt {A : Type} (c : completion A) (st : state)
    (k : A → response * state) : response * state :=
  match c with
  | Returns a => k a
  | Throws e => (Throws e, st)
  | Unmodelled => (Unmodelled, st)
  end.

(** *** Admin key *)

(** [process.env.ADMIN_KEY || "change-me"] *)
Definition ADMIN_KEY (env : option string) : string :=
  match env with
  | Some s => if s =? "" then "change-me" else s
  | None => "change-me"
  end.

(** Where a request can carry the key. *)
Record credentials : Type := Credentials {
  header_x_admin_key : jsval;
  query_adminKey : jsval;
  body_adminKey : jsval
}.

(** [req.headers["x-admin-key"] || req.query.adminKey || req.body.adminKey] *)
Definition admin_key_of (req : credentials) : jsval :=
  JS.or (JS.or (header_x_admin_key req) (query_adminKey req))
        (body_adminKey req).

(** The key passes: the negation of [!key || key !== ADMIN_KEY]. *)
Definition authorize (env : option string) (key : jsval) : bool :=
  negb (negb (JS.truthy key) || negb (JS.strict_eq_string key (ADMIN_KEY env))).

Definition requireAdminKey (env : option string) (req : credentials)
    (next : state → response * state) (st : state) : response * state :=
  let key := admin_key_of req in
  if negb (authorize env key)
  then (res_status_json 401 (error_body "Unauthorized: invalid admin key"), st)
  else next st.

(** *** Handlers *)

(** GET /api/content *)
Definition load (st : state) : response * state :=
  let '(content, st) := readContent st in
  (res_json (Data (deref st content)), st).

(** GET /api/content/:section *)
Definition getSection (name : string) (st : state) : response * state :=
  let '(content, st) := readContent st in
  attempt (JS.member (deref st content) name) st (fun section =>
  if negb (JS.truthy section)
  then (res_status_json 404 (error_body "Section not found"), st)
  else (res_json section, st)).

(** PUT /api/content/:section, after [requireAdminKey]; [body] is
    [req.body].  In the reply, [content[section]] is the body just
    assigned. *)
Definition replaceSection (section : string) (body : value) (st : state)
  : response * state :=
  let '(content, st) := readContent st in
  attempt (JS.fields_of (deref st content)) st (fun fs =>
  if negb (JS.hasOwnProperty fs section)
  then (res_status_json 404 (error_body "Section not found"), st)
  else
    let fs := JS.set fs section body in
    let st := mutate content fs st in
    let st := writeContent (VObj fs) st in
    (res_json (Data (VObj [("status", VStr "ok"); ("section", body)])), st)).

(** GET /api/photos *)
Definition listPhotos (st : state) : response * state :=
  let '(content, st) := readContent st in
  attempt (JS.member (deref st content) "photos") st (fun photos =>
  (res_json (JS.or photos (Data (VArr []))), st)).

(** The comparator of [content.photos.sort]:
    [(a, b) => (a.position || 0) - (b.position || 0)] *)
Definition by_position (a b : value) : completion Z :=
  pa ← JS.member a "position";
  pb ← JS.member b "position";
  na ← JS.ToNumber (JS.or pa (Data (VNum 0)));
  nb ← JS.ToNumber (JS.or pb (Data (VNum 0)));
  mret (na - nb)%Z.

(** [x || d] on a text field of a multipart form: absent or a string. *)
Definition field_or (x : option string) (d : string) : string :=
  match x with
  | Some s => if s =? "" then d else s
  | None => d
  end.

(** The number [parseInt] returns, as a value.  A double holds the integers
    up to 2^53 exactly; what [parseInt] makes of longer digit strings is up
    to the implementation. *)
Definition number_value (n : option Z) : completion value :=
  match n with
  | None => Returns VNaN
  | Some z => if (Z.abs z <=? 2 ^ 53)%Z then Returns (VNum z) else Unmodelled
  end.

(** POST /api/photos, after [requireAdminKey] and [upload.single("photo")];
    [file] is [req.file.filename], [label] and [position] are
    [req.body.label] and [req.body.position]. *)
Definition addPhoto (file : option string) (label position : option string)
    (st : state) : response * state :=
  match file with
  | None => (res_status_json 400 (error_body "No file uploaded"), st)
  | Some filename =>
      let label := field_or label "Photo" in
      let '(content, st) := readContent st in
      let id := filename in
      let url := String.append "/uploads/" filename in
      attempt (number_value (JS.parseInt (field_or position "0"))) st (fun pos =>
      let photoObj :=
        VObj [("id", VStr id); ("url", VStr url); ("label", VStr label);
              ("position", pos)] in
      attempt (JS.fields_of (deref st content)) st (fun fs =>
      let '(photos, fs) :=
        match JS.get fs "photos" with
        | Data (VArr photos) => (photos, fs)
        | _ => ([], JS.set fs "photos" (VArr []))
        end in
      let photos := photos ++ [photoObj] in
      let fs := JS.set fs "photos" (VArr photos) in
      let st := mutate content fs st in
      attempt (JS.sort by_position photos) st (fun photos =>
      let fs := JS.set fs "photos" (VArr photos) in
      let st := mutate content fs st in
      let st := writeContent (VObj fs) st in
      (res_json (Data (VObj [("status", VStr "ok"); ("photo", photoObj)])),
       st))))
  end.

(** [fs.existsSync] and [fs.unlinkSync] on a name in [UPLOADS_DIR] *)
Definition existsSync (dir : gmap string node) (name : string) : bool :=
  match dir !! name with Some _ => true | None => false end.

Definition unlinkSync (dir : gmap string node) (name : string)
  : completion (gmap string node) :=
  match dir !! name with
  | Some File => Returns (delete name dir)
  | _ => Throws SystemError
  end.

(** The callback of [content.photos.findIndex]: [(p) => p.id === id] *)
Definition id_is (id : string) (p : value) : completion bool :=
  x ← JS.member p "id"; mret (JS.strict_eq_string x id).

(** DELETE /api/photos/:id, after [requireAdminKey].  A [photos] that is
    not an array has no [findIndex] to call.  [content.photos[index].id] is
    the string [id], since [findIndex] compared it with [===]. *)
Definition removePhoto (id : string) (st : state) : response * state :=
  let '(content, st) := readContent st in
  attempt (JS.fields_of (deref st content)) st (fun fs =>
  match JS.get fs "photos" with
  | Data (VArr photos) =>
      attempt (JS.findIndex (id_is id) photos) st (fun index =>
      match index with
      | None => (res_status_json 404 (error_body "Photo not found"), st)
      | Some index =>
          attempt
            (if existsSync (uploads st) id then unlinkSync (uploads st) id
             else Returns (uploads st)) st (fun dir =>
          let st := with_uploads dir st in
          let fs := JS.set fs "photos" (VArr (JS.splice1 index photos)) in
          let st := mutate content fs st in
          let st := writeContent (VObj fs) st in
          (res_json (Data (VObj [("status", VStr "ok")])), st))
      end)
  | _ => (Throws TypeError, st)
  end).

(** [upload.single("photo")]: the uploaded file is in [UPLOADS_DIR] under
    its generated name before the handler runs. *)
Definition upload_single (file : option string) (st : state) : state :=
  match file with
  | Some filename => with_uploads (<[filename := File]> (uploads st)) st
  | None => st
  end.

(** *** Routes *)

Definition PUT_content (env : option string) (req : credentials)
    (section : string) (body : value) : state → response * state :=
  requireAdminKey env req (replaceSection section body).

Definition POST_photos (env : option string) (req : credentials)
    (file : option string) (label position : option string)
  : state → response * state :=
  requireAdminKey env req
    (fun st => addPhoto file label position (upload_single file st)).

Definition DELETE_photos (env : option string) (req : credentials)
    (id : string) : state → response * state :=
  requireAdminKey env req (removePhoto id).

(** ** Notions the properties are stated with *)

(** The document a request finds: what [readContent] hands out. *)
Definition current (st : state) : value :=
  let '(content, st') := readContent st in deref st' content.

(** The photos sequence of a document with own fields [fs]: empty unless
    [photos] is an array. *)
Definition photos_in (fs : list (string * value)) : list value :=
  match JS.get fs "photos" with
  | Data (VArr photos) => photos
  | _ => []
  end.

(** The position a photo sorts at: [p.position || 0], as a number. *)
Definition position_key (p : value) : completion Z :=
  x ← JS.member p "position"; JS.ToNumber (JS.or x (Data (VNum 0))).

Definition has_position (k : Z) (p : value) : Prop :=
  position_key p = Returns k.

(** [p] may stand before [q] in a sequence sorted ascending by position. *)
Definition ascending (p q : value) : Prop :=
  ∃ a b : Z, position_key p = Returns a ∧ position_key q = Returns b ∧ (a ≤ b)%Z.

(** JSON proper: no [NaN] inside. *)
Fixpoint is_json (v : value) : bool :=
  match v with
  | VNaN => false
  | VArr items => forallb is_json items
  | VObj fields => forallb (fun kv => is_json (snd kv)) fields
  | _ => true
  end.

(** A request body as [express.json()] hands it to a handler: a JSON
    object or array. *)
Definition structurally_valid (x : value) : bool :=
  is_json x && match x with VArr _ | VObj _ => true | _ => false end.

(** The top-level keys of a document. *)
Definition keys (fs : list (string * value)) : list string := map fst fs.

(** The position a photo sorts at, 0 where [position_key] gives none. *)
Definition key_of (p : value) : Z :=
  match position_key p with Returns k => k | _ => 0%Z end.

(** A photo the comparator can place. *)
Definition keyed (p : value) : Prop := ∃ k, position_key p = Returns k.

(** Sample data. *)
Definition photo (id label : string) (position : Z) : value :=
  VObj [("id", VStr id); ("url", VStr (String.append "/uploads/" id));
        ("label", VStr label); ("position", VNum position)].

(** An installation whose data file holds the default sections with the
    given photos, and whose uploads directory is [dir]. *)
Definition installed (photos : list value) (dir : gmap string node) : state :=
  State (Some (JS.Encodes (VObj (JS.set initial_defaultContent "photos"
                                   (VArr photos)))))
        dir initial_defaultContent.

(** ** Upload file names *)

(** A code unit [/[a-z0-9-_]/i] matches. *)
Definition safe_char (c : ascii) : bool :=
  let n := nat_of_ascii c in
  (((48 <=? n) && (n <=? 57)) || ((65 <=? n) && (n <=? 90))
   || ((97 <=? n) && (n <=? 122)) || (n =? 45) || (n =? 95))%nat.

(** [s.replace(/[^a-z0-9-_]/gi, "_")] on a UTF-8 string.  The pattern has
    no [u] flag, so it replaces UTF-16 code units one by one: a character
    of two or three bytes is one code unit, a character of four bytes is
    two.  The underscores are written at the lead byte and the
    continuation bytes (128..191) are dropped. *)
Fixpoint replace_unsafe (s : string) : string :=
  match s with
  | EmptyString => EmptyString
  | String c rest =>
      let n := nat_of_ascii c in
      if (n <? 128)%nat then String (if safe_char c then c else "_"%char)
                              (replace_unsafe rest)
      else if (n <? 192)%nat then replace_unsafe rest
      else if (n <? 240)%nat then String "_"%char (replace_unsafe rest)
      else String "_"%char (String "_"%char (replace_unsafe rest))
  end.

(** [`${n}`] for an integer (of less than 22 digits, as [Date.now()] is). *)
Definition Number_toString (n : Z) : string :=
  NilZero.string_of_int (Z.to_int n).

(** The [filename] function of the multer storage; [path.extname],
    [path.basename] and the value of [Date.now()] are parameters. *)
Definition filename (path_extname : string → string)
    (path_basename : string → string → string) (Date_now : Z)
    (originalname : string) : string :=
  let ext := path_extname originalname in
  let base := replace_unsafe (path_basename originalname ext) in
  let unique := Date_now in
  String.append base
    (String.append "_" (String.append (Number_toString unique) ext)).

(** A photo whose file is in the uploads directory. *)
Definition has_file (dir : gmap string node) (p : value) : Prop :=
  ∃ id, JS.member p "id" = Returns (Data (VStr id)) ∧ is_Some (dir !! id).

(** Every byte of the string is a safe character. *)
Fixpoint all_safe (s : string) : bool :=
  match s with
  | EmptyString => true
  | String c rest => safe_char c && all_safe rest
  end.

#[global] Instance error_eq_dec : EqDecision error.
Proof. solve_decision. Defined.

#[global] Instance completion_eq_dec {A : Type} `{EqDecision A}
  : EqDecision (completion A).
Proof. solve_decision. Defined.

#[global] Instance has_position_dec (k : Z) (p : value)
  : Decision (has_position k p).
Proof. unfold has_position. apply _. Defined.

(** Induction on values, through arrays and objects. *)
Section value_ind.
Variable P : value → Prop.
Hypothesis HNull : P VNull.
Hypothesis HBool : ∀ b, P (VBool b).
Hypothesis HNum : ∀ n, P (VNum n).
Hypothesis HNaN : P VNaN.
Hypothesis HStr : ∀ s, P (VStr s).
Hypothesis HArr : ∀ items, Forall P items → P (VArr items).
Hypothesis HObj : ∀ fields, Forall (fun kv => P (snd kv)) fields → P (VObj fields).

Fixpoint value_ind (v : value) : P v :=
  match v with
  | VNull => HNull
  | VBool b => HBool b
  | VNum n => HNum n
  | VNaN => HNaN
  | VStr s => HStr s
  | VArr items =>
      HArr items
        ((fix all (l : list value) : Forall P l :=
            match l with
            | [] => @List.Forall_nil _ P
            | x :: l' => @List.Forall_cons _ P x l' (value_ind x) (all l')
            end) items)
  | VObj fields =>
      HObj fields
        ((fix all (l : list (string * value))
            : Forall (fun kv => P (snd kv)) l :=
            match l with
            | [] => @List.Forall_nil _ _
            | kv :: l' =>
                @List.Forall_cons _ _ kv l' (value_ind (snd kv)) (all l')
            end) fields)
  end.
End value_ind.

(** ** JSON round trips *)

Lemma revive_json (v : value) : is_json v = true → JS.revive v = v.
Proof.
  induction v as [| | | | |items IH|fields IH] using value_ind;
    simpl; try done.
  - intros Hall. f_equal.
    induction IH as [|x l Hx _ IHl]; simpl in *; [done|].
    apply andb_true_iff in Hall as [? ?]. f_equal; auto.
  - intros Hall. f_equal.
    induction IH as [|[k x] l Hx _ IHl]; simpl in *; [done|].
    apply andb_true_iff in Hall as [? ?]. f_equal; [f_equal|]; auto.
Qed.

Lemma is_json_revive (v : value) : is_json (JS.revive v) = true.
Proof.
  induction v as [| | | | |items IH|fields IH] using value_ind;
    simpl; try done.
  - induction IH as [|x l Hx _ IHl]; simpl; [done|].
    by rewrite Hx, IHl.
  - induction IH as [|[k x] l Hx _ IHl]; simpl in *; [done|].
    by rewrite Hx, IHl.
Qed.

Lemma revive_idem (v : value) : JS.revive (JS.revive v) = JS.revive v.
Proof. apply revive_json, is_json_revive. Qed.

Lemma revive_fields_idem (fs : list (string * value)) :
  map (fun kv => (fst kv, JS.revive (snd kv)))
      (map (fun kv => (fst kv, JS.revive (snd kv))) fs)
  = map (fun kv => (fst kv, JS.revive (snd kv))) fs.
Proof.
  pose proof (revive_idem (VObj fs)) as H. simpl in H. by injection H.
Qed.

Lemma truthy_revive (v : value) :
  JS.truthy (Data (JS.revive v)) = JS.truthy (Data v).
Proof. by destruct v. Qed.

(** ** Own fields *)

Lemma own_set_eq fs k v : JS.own (JS.set fs k v) k = Some v.
Proof.
  induction fs as [|[k' v'] fs IH]; simpl.
  - by rewrite String.eqb_refl.
  - destruct (String.eqb_spec k' k) as [->|Hne]; simpl.
    + by rewrite String.eqb_refl.
    + by apply String.eqb_neq in Hne as ->.
Qed.

Lemma own_set_ne fs k k' v : k ≠ k' → JS.own (JS.set fs k v) k' = JS.own fs k'.
Proof.
  intros Hne. induction fs as [|[k0 v0] fs IH]; simpl.
  - by apply String.eqb_neq in Hne as ->.
  - destruct (String.eqb_spec k0 k) as [->|Hne0]; simpl.
    + by apply String.eqb_neq in Hne as ->.
    + by rewrite IH.
Qed.

Lemma get_set_eq fs k v : JS.get (JS.set fs k v) k = Data v.
Proof. unfold JS.get. by rewrite own_set_eq. Qed.

Lemma get_set_ne fs k k' v : k ≠ k' → JS.get (JS.set fs k v) k' = JS.get fs k'.
Proof. intros. unfold JS.get. by rewrite own_set_ne. Qed.

Lemma set_set fs k v w : JS.set (JS.set fs k v) k w = JS.set fs k w.
Proof.
  induction fs as [|[k' v'] fs IH]; simpl.
  - by rewrite String.eqb_refl.
  - destruct (String.eqb_spec k' k) as [->|Hne]; simpl.
    + by rewrite String.eqb_refl.
    + apply String.eqb_neq in Hne as ->. by rewrite IH.
Qed.


Lemma own_revive fs k :
  JS.own (map (fun kv => (fst kv, JS.revive (snd kv))) fs) k
  = JS.revive <$> JS.own fs k.
Proof.
  induction fs as [|[k' v'] fs IH]; simpl; [done|].
  by destruct (k' =? k).
Qed.

Lemma keys_revive fs :
  keys (map (fun kv => (fst kv, JS.revive (snd kv))) fs) = keys fs.
Proof. unfold keys. rewrite map_map. by apply map_ext. Qed.

Lemma get_revive fs k :
  JS.get (map (fun kv => (fst kv, JS.revive (snd kv))) fs) k
  = match JS.get fs k with Data v => Data (JS.revive v) | x => x end.
Proof.
  unfold JS.get. rewrite own_revive. destruct (JS.own fs k); [done|].
  change (JS.revive <$> None) with (@None value).
  by destruct (existsb (String.eqb k) JS.Object_prototype).
Qed.

Lemma wire_get_revive fs k :
  JS.wire (JS.get (map (fun kv => (fst kv, JS.revive (snd kv))) fs) k)
  = JS.wire (JS.get fs k).
Proof.
  rewrite get_revive. destruct (JS.get fs k); simpl; [done| |done].
  by rewrite revive_idem.
Qed.

Lemma truthy_get_revive fs k :
  JS.truthy (JS.get (map (fun kv => (fst kv, JS.revive (snd kv))) fs) k)
  = JS.truthy (JS.get fs k).
Proof.
  rewrite get_revive. destruct (JS.get fs k); [done| |done].
  apply truthy_revive.
Qed.

(** ** Sorting *)

Section Sort.
Context {A : Type} (cmp : A → A → completion Z) (key : A → Z).

Lemma sort_insert_spec (x : A) (l : list A) :
  (∀ y, y ∈ l → cmp x y = Returns (key x - key y)%Z) →
  ∃ l1 l2,
    l = l1 ++ l2 ∧
    JS.sort_insert cmp x l = Returns (l1 ++ x :: l2) ∧
    Forall (fun y => (key y < key x)%Z) l1 ∧
    (∀ y, head l2 = Some y → (key x ≤ key y)%Z).
Proof.
  induction l as [|y l IH]; intros Hcmp; simpl.
  - exists [], []. repeat split; [constructor|done].
  - rewrite (Hcmp y) by apply list_elem_of_here. simpl.
    destruct (Z.gtb_spec (key x - key y) 0) as [Hgt|Hle].
    + destruct IH as (l1 & l2 & -> & Hins & Hlt & Hhd).
      { intros z Hz. apply Hcmp. by apply list_elem_of_further. }
      exists (y :: l1), l2. rewrite Hins. simpl.
      repeat split; [|done]. constructor; [lia|done].
    + exists [], (y :: l). repeat split; [constructor|].
      simpl. intros ? [= <-]. lia.
Qed.

Lemma sort_spec (l : list A) :
  (∀ x y, x ∈ l → y ∈ l → cmp x y = Returns (key x - key y)%Z) →
  ∃ sorted,
    JS.sort cmp l = Returns sorted ∧
    sorted ≡ₚ l ∧
    StronglySorted (fun x y => (key x ≤ key y)%Z) sorted ∧
    ∀ k, filter (fun x => key x = k) sorted = filter (fun x => key x = k) l.
Proof.
  induction l as [|x l IH]; intros Hcmp; simpl.
  - exists []. repeat split; constructor.
  - destruct IH as (sorted & -> & Hperm & Hsorted & Hstable).
    { intros y z Hy Hz. apply Hcmp; by apply list_elem_of_further. }
    simpl.
    destruct (sort_insert_spec x sorted) as (l1 & l2 & -> & -> & Hlt & Hhd).
    { intros y Hy. apply Hcmp; [apply list_elem_of_here|].
      apply list_elem_of_further. by rewrite <- Hperm. }
    eexists. split; [done|]. split; [|split].
    + rewrite <- Hperm. by rewrite Permutation_middle.
    + apply StronglySorted_app in Hsorted as (Hcross & Hs1 & Hs2).
      apply StronglySorted_app_2; [| done |].
      * intros y z Hy Hz. rewrite Forall_forall in Hlt.
        apply elem_of_cons in Hz as [->|Hz]; [specialize (Hlt y Hy); lia|].
        by apply Hcross.
      * apply StronglySorted_cons. split; [|done].
        destruct l2 as [|y l2]; [constructor|].
        specialize (Hhd y eq_refl).
        apply StronglySorted_cons in Hs2 as [Hall _].
        constructor; [done|].
        eapply Forall_impl; [exact Hall|]. simpl. intros; lia.
    + intros k. rewrite filter_app, !filter_cons, <- (Hstable k), filter_app.
      case_decide as Hk; [|done].
      assert (filter (fun y => key y = k) l1 = []) as ->; [|done].
      clear -Hlt Hk. induction Hlt as [|y l1 Hy _ IH]; [done|].
      rewrite filter_cons_False by lia. done.
Qed.
End Sort.

Lemma by_position_keys (a b : value) (ka kb : Z) :
  position_key a = Returns ka → position_key b = Returns kb →
  by_position a b = Returns (ka - kb)%Z.
Proof.
  unfold position_key, by_position.
  destruct (JS.member a "position") as [pa| |]; simpl; [|done..].
  destruct (JS.member b "position") as [pb| |]; simpl; [|done..].
  by intros -> ->.
Qed.

Lemma has_position_key_of k p : keyed p → has_position k p ↔ key_of p = k.
Proof.
  unfold has_position, key_of. intros [k' ->]. split; congruence.
Qed.

Lemma filter_has_position k (l : list value) :
  Forall keyed l →
  filter (has_position k) l = filter (fun p => key_of p = k) l.
Proof.
  induction 1 as [|p l Hp _ IH]; [done|].
  rewrite !filter_cons, IH.
  pose proof (has_position_key_of k p Hp) as Hiff.
  destruct (decide (has_position k p)), (decide (key_of p = k)); tauto.
Qed.

Lemma sort_by_position (l : list value) :
  Forall keyed l →
  ∃ sorted,
    JS.sort by_position l = Returns sorted ∧
    sorted ≡ₚ l ∧
    StronglySorted ascending sorted ∧
    ∀ k, filter (has_position k) sorted = filter (has_position k) l.
Proof.
  intros Hkeyed.
  destruct (sort_spec by_position key_of l) as (sorted & Hsort & Hperm & Hs & Hstable).
  { intros x y Hx Hy. rewrite Forall_forall in Hkeyed.
    destruct (Hkeyed x Hx) as [kx Hkx], (Hkeyed y Hy) as [ky Hky].
    unfold key_of. rewrite Hkx, Hky. by apply by_position_keys. }
  assert (Forall keyed sorted) as Hkeyed' by by rewrite Hperm.
  exists sorted. repeat split; [done..| |].
  - clear -Hs Hkeyed'. induction Hs as [|p s Hs IH Hall]; [constructor|].
    apply Forall_cons in Hkeyed' as [[kp Hp] Hk]. constructor; [by apply IH|].
    rewrite Forall_forall in Hall, Hk. apply Forall_forall. intros q Hq.
    destruct (Hk q Hq) as [kq Hkq]. specialize (Hall q Hq).
    unfold key_of in Hall. rewrite Hp, Hkq in Hall. by exists kp, kq.
  - intros k. by rewrite !filter_has_position.
Qed.

(** ** Reading back what was written *)

Lemma readContent_encodes st v :
  data_file st = Some (JS.Encodes v) → readContent st = (Parsed v, st).
Proof. unfold readContent. by intros ->. Qed.

Lemma current_encodes st v : data_file st = Some (JS.Encodes v) → current st = v.
Proof. intros H. unfold current. by rewrite (readContent_encodes _ _ H). Qed.

Lemma listPhotos_array st fs photos :
  JS.fields_of (current st) = Returns fs →
  JS.get fs "photos" = Data (VArr photos) →
  listPhotos st
  = (Returns (Reply 200 (Some (VArr (map JS.revive photos)))),
     snd (readContent st)).
Proof.
  unfold listPhotos, current. destruct (readContent st) as [content st1].
  unfold JS.member. intros -> Hget. simpl. by rewrite Hget.
Qed.

(** ** Positions *)

Lemma position_key_revive p k :
  position_key p = Returns k → position_key (JS.revive p) = Returns k.
Proof.
  destruct p as [| | | | | |fs]; try done.
  unfold position_key, JS.member. simpl. rewrite get_revive.
  destruct (JS.get fs "position") as [|v|]; [done| |done].
  by destruct v.
Qed.

Lemma keyed_revive p : keyed p → keyed (JS.revive p).
Proof. intros [k Hk]. exists k. by apply position_key_revive. Qed.

Lemma has_position_revive k p :
  keyed p → has_position k (JS.revive p) ↔ has_position k p.
Proof.
  intros [k' Hk]. unfold has_position.
  rewrite (position_key_revive _ _ Hk), Hk. done.
Qed.

Lemma filter_has_position_revive k (l : list value) :
  Forall keyed l →
  filter (has_position k) (map JS.revive l)
  = map JS.revive (filter (has_position k) l).
Proof.
  induction 1 as [|p l Hp _ IH]; [done|].
  simpl. rewrite !filter_cons, IH.
  pose proof (has_position_revive k p Hp).
  destruct (decide (has_position k (JS.revive p))),
    (decide (has_position k p)); try tauto; done.
Qed.

Lemma ascending_revive p q :
  ascending p q → ascending (JS.revive p) (JS.revive q).
Proof.
  intros (a & b & Ha & Hb & Hab). exists a, b.
  auto using position_key_revive.
Qed.

Lemma StronglySorted_ascending_revive (l : list value) :
  StronglySorted ascending l → StronglySorted ascending (map JS.revive l).
Proof.
  induction 1 as [|p l _ IH Hall]; simpl; constructor; [done|].
  apply Forall_map. eapply Forall_impl; [exact Hall|].
  simpl. auto using ascending_revive.
Qed.

Lemma number_value_keyed n pos (id url label : value) :
  number_value n = Returns pos →
  position_key
    (VObj [("id", id); ("url", url); ("label", label); ("position", pos)])
  = Returns (match pos with VNum z => z | _ => 0%Z end).
Proof.
  destruct n as [z|]; simpl.
  - destruct (Z.abs z <=? 2 ^ 53)%Z; [|done]. intros [= <-].
    unfold position_key. simpl. unfold JS.or. simpl.
    destruct (Z.eqb_spec z 0) as [->|]; done.
  - by intros [= <-].
Qed.

(** ** addPhoto *)

Lemma addPhoto_returns st filename label position fs pos sorted :
  JS.fields_of (current st) = Returns fs →
  number_value (JS.parseInt (field_or position "0")) = Returns pos →
  JS.sort by_position
    (photos_in fs ++
     [VObj [("id", VStr filename);
            ("url", VStr (String.append "/uploads/" filename));
            ("label", VStr (field_or label "Photo")); ("position", pos)]])
  = Returns sorted →
  ∃ st',
    addPhoto (Some filename) label position st
    = (res_json (Data (VObj
         [("status", VStr "ok");
          ("photo", VObj [("id", VStr filename);
                          ("url", VStr (String.append "/uploads/" filename));
                          ("label", VStr (field_or label "Photo"));
                          ("position", pos)])])), st') ∧
    data_file st'
    = Some (JS.JSON_stringify (VObj (JS.set fs "photos" (VArr sorted)))) ∧
    uploads st' = uploads st.
Proof.
  unfold current, addPhoto, photos_in.
  destruct (readContent st) as [content st1] eqn:Hread.
  intros Hfs -> Hsort. simpl. rewrite Hfs. simpl.
  assert (uploads st1 = uploads st) as Hup.
  { revert Hread. unfold readContent.
    destruct (data_file st) as [[raw|v]|]; simpl; by intros [= _ <-]. }
  destruct (JS.get fs "photos") as [|[| | | | |photos|]|];
    rewrite Hsort; simpl; rewrite ?set_set;
    (eexists; split; [reflexivity|]; split; [done|]);
    by destruct content.
Qed.

(** ** findIndex and splice *)

Section FindIndex.
Context {A : Type} (p : A → completion bool).

Lemma findIndex_none (l : list A) :
  Forall (fun x => p x = Returns false) l → JS.findIndex p l = Returns None.
Proof.
  induction 1 as [|x l Hx _ IH]; simpl; [done|]. by rewrite Hx, IH.
Qed.

Lemma findIndex_first (pre : list A) (x : A) (post : list A) :
  Forall (fun y => p y = Returns false) pre → p x = Returns true →
  JS.findIndex p (pre ++ x :: post) = Returns (Some (length pre)).
Proof.
  intros Hpre Hx. induction Hpre as [|y pre Hy _ IH]; simpl.
  - by rewrite Hx.
  - by rewrite Hy, IH.
Qed.

Lemma splice1_middle (pre : list A) (x : A) (post : list A) :
  JS.splice1 (length pre) (pre ++ x :: post) = pre ++ post.
Proof.
  unfold JS.splice1.
  rewrite take_app_length.
  change (pre ++ x :: post) with (pre ++ [x] ++ post).
  rewrite app_assoc, drop_app_length'; [done|].
  rewrite length_app. simpl. lia.
Qed.
End FindIndex.

Lemma id_is_revive id p b :
  id_is id p = Returns b → id_is id (JS.revive p) = Returns b.
Proof.
  destruct p as [| | | | | |fs]; try done.
  unfold id_is, JS.member. simpl. rewrite get_revive.
  destruct (JS.get fs "id") as [|v|]; [done| |done].
  by destruct v.
Qed.

Lemma Forall_id_is_revive id b (l : list value) :
  Forall (fun p => id_is id p = Returns b) l →
  Forall (fun p => id_is id p = Returns b) (map JS.revive l).
Proof.
  intros H. apply Forall_map. eapply Forall_impl; [exact H|].
  simpl. auto using id_is_revive.
Qed.

(** ** removePhoto *)

Lemma readContent_uploads st : uploads (snd (readContent st)) = uploads st.
Proof.
  unfold readContent. by destruct (data_file st) as [[raw|v]|].
Qed.

Lemma removePhoto_no_match st id fs photos :
  JS.fields_of (current st) = Returns fs →
  JS.get fs "photos" = Data (VArr photos) →
  Forall (fun p => id_is id p = Returns false) photos →
  removePhoto id st
  = (res_status_json 404 (error_body "Photo not found"),
     snd (readContent st)).
Proof.
  unfold current, removePhoto.
  destruct (readContent st) as [content st1].
  intros -> Hget Hnone. simpl. rewrite Hget.
  by rewrite (findIndex_none _ _ Hnone).
Qed.

Lemma removePhoto_first_match st id fs pre p post :
  JS.fields_of (current st) = Returns fs →
  JS.get fs "photos" = Data (VArr (pre ++ p :: post)) →
  Forall (fun q => id_is id q = Returns false) pre →
  id_is id p = Returns true →
  uploads st !! id ≠ Some Locked →
  ∃ st',
    removePhoto id st = (res_json (Data (VObj [("status", VStr "ok")])), st') ∧
    data_file st'
    = Some (JS.JSON_stringify (VObj (JS.set fs "photos" (VArr (pre ++ post))))) ∧
    uploads st' = delete id (uploads st).
Proof.
  unfold current, removePhoto.
  pose proof (readContent_uploads st) as Hup.
  destruct (readContent st) as [content st1]. simpl in Hup.
  intros -> Hget Hpre Hp Hfile. simpl. rewrite Hget.
  rewrite (findIndex_first _ _ _ _ Hpre Hp). simpl.
  rewrite splice1_middle. unfold existsSync, unlinkSync. rewrite Hup.
  destruct (uploads st !! id) as [[|]|] eqn:Hnode; [|done|]; simpl.
  - eexists. split; [reflexivity|]. split; [done|]. by destruct content.
  - eexists. split; [reflexivity|]. split; [done|].
    rewrite delete_id by done. by destruct content.
Qed.

Lemma written_photos st' (fs : list (string * value)) (photos : list value) :
  data_file st'
  = Some (JS.JSON_stringify (VObj (JS.set fs "photos" (VArr photos)))) →
  JS.fields_of (current st')
  = Returns (map (fun kv => (fst kv, JS.revive (snd kv)))
               (JS.set fs "photos" (VArr photos))) ∧
  JS.get (map (fun kv => (fst kv, JS.revive (snd kv)))
            (JS.set fs "photos" (VArr photos))) "photos"
  = Data (VArr (map JS.revive photos)).
Proof.
  intros Hfile. split.
  - by rewrite (current_encodes _ _ Hfile).
  - by rewrite get_revive, get_set_eq.
Qed.

Lemma listPhotos_written st' (fs : list (string * value)) (photos : list value) :
  data_file st'
  = Some (JS.JSON_stringify (VObj (JS.set fs "photos" (VArr photos)))) →
  fst (listPhotos st') = Returns (Reply 200 (Some (VArr (map JS.revive photos)))).
Proof.
  intros Hfile. destruct (written_photos st' fs photos Hfile) as [Hfs' Hget].
  rewrite (listPhotos_array st' _ _ Hfs' Hget). simpl.
  by rewrite map_map, (map_ext _ _ revive_idem).
Qed.



Lemma addPhoto_listed st filename label position fs pos :
  JS.fields_of (current st) = Returns fs →
  number_value (JS.parseInt (field_or position "0")) = Returns pos →
  Forall keyed (photos_in fs) →
  let photo :=
    VObj [("id", VStr filename);
          ("url", VStr (String.append "/uploads/" filename));
          ("label", VStr (field_or label "Photo")); ("position", pos)] in
  ∃ st' listed,
    addPhoto (Some filename) label position st
    = (res_json (Data (VObj [("status", VStr "ok"); ("photo", photo)])),
       st') ∧
    fst (listPhotos st') = Returns (Reply 200 (Some (VArr listed))) ∧
    StronglySorted ascending listed ∧
    listed ≡ₚ map JS.revive (photos_in fs ++ [photo]) ∧
    ∀ k, filter (has_position k) listed
         = filter (has_position k) (map JS.revive (photos_in fs ++ [photo])).
Proof.
  intros Hfs Hpos Hkeyed photo.
  assert (Forall keyed (photos_in fs ++ [photo])) as Hall.
  { apply Forall_app. split; [done|]. constructor; [|constructor].
    eexists. by eapply number_value_keyed. }
  destruct (sort_by_position _ Hall)
    as (sorted & Hsort & Hperm & Hsorted & Hstable).
  destruct (addPhoto_returns st filename label position fs pos sorted
              Hfs Hpos Hsort) as (st' & Hadd & Hfile & _).
  exists st', (map JS.revive sorted). split; [done|].
  split; [|split; [|split]].
  - by apply (listPhotos_written st' fs).
  - by apply StronglySorted_ascending_revive.
  - by rewrite Hperm.
  - intros k. rewrite !filter_has_position_revive; [|done|by rewrite Hperm].
    by rewrite Hstable.
Qed.

(** C1.  After every addPhoto the photos sequence is sorted ascending by
    position, and photos with equal positions keep their insertion order:
    for every position [k], the photos at [k] are those of the previous
    sequence, in their order, followed by the new photo when it is at [k].
    In particular, three addPhoto calls with positions 5, 1, 3 on a fresh
    installation leave the photos in the order 1, 3, 5. *)
Theorem addPhoto_keeps_photos_sorted :
  (∀ st filename label position fs pos,
     JS.fields_of (current st) = Returns fs →
     number_value (JS.parseInt (field_or position "0")) = Returns pos →
     Forall keyed (photos_in fs) →
     let photo :=
       VObj [("id", VStr filename);
             ("url", VStr (String.append "/uploads/" filename));
             ("label", VStr (field_or label "Photo")); ("position", pos)] in
     ∃ st' listed,
       addPhoto (Some filename) label position st
       = (res_json (Data (VObj [("status", VStr "ok"); ("photo", photo)])),
          st') ∧
       fst (listPhotos st') = Returns (Reply 200 (Some (VArr listed))) ∧
       StronglySorted ascending listed ∧
       listed ≡ₚ map JS.revive (photos_in fs ++ [photo]) ∧
       ∀ k, filter (has_position k) listed
            = filter (has_position k)
                (map JS.revive (photos_in fs ++ [photo]))) ∧
  (∀ a b c la lb lc,
     let st1 := snd (addPhoto (Some a) la (Some "5") fresh) in
     let st2 := snd (addPhoto (Some b) lb (Some "1") st1) in
     let st3 := snd (addPhoto (Some c) lc (Some "3") st2) in
     fst (listPhotos st3)
     = Returns (Reply 200 (Some (VArr
         [ photo b (field_or lb "Photo") 1; photo c (field_or lc "Photo") 3;
           photo a (field_or la "Photo") 5 ])))).
Proof.
  split.
  - apply addPhoto_listed.
  - intros a b c la lb lc. vm_compute. reflexivity.
Qed.

Lemma addPhoto_keeps_photos_sorted_witness :
  let st := installed [photo "a.jpg" "first" 1] {[ "a.jpg" := File ]} in
  let new :=
    VObj [("id", VStr "b.jpg");
          ("url", VStr (String.append "/uploads/" "b.jpg"));
          ("label", VStr (field_or None "Photo")); ("position", VNum 1)] in
  ∃ st' listed,
    addPhoto (Some "b.jpg") None (Some "1") st
    = (res_json (Data (VObj [("status", VStr "ok"); ("photo", new)])), st') ∧
    fst (listPhotos st') = Returns (Reply 200 (Some (VArr listed))) ∧
    StronglySorted ascending listed ∧
    listed ≡ₚ map JS.revive ([photo "a.jpg" "first" 1] ++ [new]) ∧
    ∀ k, filter (has_position k) listed
         = filter (has_position k)
             (map JS.revive ([photo "a.jpg" "first" 1] ++ [new])).
Proof.
  intros st new.
  apply (proj1 addPhoto_keeps_photos_sorted st "b.jpg" None (Some "1")
           (JS.set initial_defaultContent "photos"
              (VArr [photo "a.jpg" "first" 1])) (VNum 1)).
  - reflexivity.
  - reflexivity.
  - repeat constructor. by exists 1%Z.
Defined.

(** C8, as the code has it.  With the position missing or empty the photo
    carries position 0; with a position [parseInt] makes nothing of, it
    carries NaN, which is null in the reply and in the data file.  Either
    way the photo sorts at position 0, the reply holds the photo, and
    listPhotos then holds it, in a sequence sorted by position. *)
Theorem addPhoto_position_missing_or_non_numeric :
  ∀ st filename label position fs carried,
    JS.fields_of (current st) = Returns fs →
    Forall keyed (photos_in fs) →
    ((position = None ∨ position = Some "") ∧ carried = VNum 0 ∨
     (∃ s, position = Some s ∧ s ≠ "" ∧ JS.parseInt s = None) ∧
     carried = VNull) →
    let photo :=
      VObj [("id", VStr filename);
            ("url", VStr (String.append "/uploads/" filename));
            ("label", VStr (field_or label "Photo"));
            ("position", carried)] in
    ∃ st' listed,
      addPhoto (Some filename) label position st
      = (Returns (Reply 200
           (Some (VObj [("status", VStr "ok"); ("photo", photo)]))), st') ∧
      fst (listPhotos st') = Returns (Reply 200 (Some (VArr listed))) ∧
      photo ∈ listed ∧
      position_key photo = Returns 0%Z ∧
      StronglySorted ascending listed.
Proof.
  intros st filename label position fs carried Hfs Hkeyed Hcases photo.
  assert (∃ pos,
            number_value (JS.parseInt (field_or position "0")) = Returns pos ∧
            JS.revive pos = carried ∧ position_key photo = Returns 0%Z)
    as (pos & Hpos & Hcarried & Hkey).
  { subst photo.
    destruct Hcases as [[[->| ->] ->]|[(s & -> & Hs & Hnan) ->]].
    - by exists (VNum 0).
    - by exists (VNum 0).
    - exists VNaN. simpl. apply String.eqb_neq in Hs as ->. by rewrite Hnan. }
  destruct (addPhoto_listed st filename label position fs pos Hfs Hpos Hkeyed)
    as (st' & listed & Hadd & Hlist & Hsorted & Hperm & _).
  exists st', listed. split; [|split; [done|split; [|done]]].
  - rewrite Hadd. unfold res_json. simpl. by rewrite Hcarried.
  - rewrite Hperm, map_app, elem_of_app. right. simpl.
    rewrite Hcarried. apply list_elem_of_here.
Qed.

Lemma addPhoto_position_missing_or_non_numeric_witness :
  ∃ st' listed,
    addPhoto (Some "a.jpg") None (Some "front") fresh
    = (Returns (Reply 200
         (Some (VObj [("status", VStr "ok");
                      ("photo",
                       VObj [("id", VStr "a.jpg");
                             ("url", VStr (String.append "/uploads/" "a.jpg"));
                             ("label", VStr (field_or None "Photo"));
                             ("position", VNull)])]))), st') ∧
    fst (listPhotos st') = Returns (Reply 200 (Some (VArr listed))) ∧
    VObj [("id", VStr "a.jpg");
          ("url", VStr (String.append "/uploads/" "a.jpg"));
          ("label", VStr (field_or None "Photo"));
          ("position", VNull)] ∈ listed ∧
    position_key
      (VObj [("id", VStr "a.jpg");
             ("url", VStr (String.append "/uploads/" "a.jpg"));
             ("label", VStr (field_or None "Photo"));
             ("position", VNull)]) = Returns 0%Z ∧
    StronglySorted ascending listed.
Proof.
  apply (addPhoto_position_missing_or_non_numeric fresh "a.jpg" None
           (Some "front") initial_defaultContent VNull).
  - reflexivity.
  - constructor.
  - right. split; [|reflexivity]. exists "front".
    split; [reflexivity|]. split; [discriminate|reflexivity].
Defined.

(** Where C8 fails: with a position that is not a number the photo in the
    reply and in the data file has position null, not 0. *)
Lemma addPhoto_non_numeric_position_is_null :
  let photo_with position :=
    VObj [("id", VStr "a.jpg"); ("url", VStr "/uploads/a.jpg");
          ("label", VStr "Photo"); ("position", position)] in
  let '(reply, st') := addPhoto (Some "a.jpg") None (Some "front") fresh in
  reply = Returns (Reply 200 (Some (VObj [("status", VStr "ok");
                                          ("photo", photo_with VNull)]))) ∧
  reply ≠ Returns (Reply 200 (Some (VObj [("status", VStr "ok");
                                          ("photo", photo_with (VNum 0))]))) ∧
  fst (listPhotos st') = Returns (Reply 200 (Some (VArr [photo_with VNull]))).
Proof. vm_compute. repeat split. discriminate. Qed.

(** C2, as the code has it.  On a document whose photos section is a
    sequence of photo objects: removePhoto fails with NotFound when no
    photo has the id; when exactly one photo has it and its file is absent
    or can be deleted, the call succeeds, listPhotos no longer contains the
    id, and a second removePhoto of the id fails with NotFound. *)
Theorem removePhoto_not_found_or_removed :
  ∀ st id fs photos,
    JS.fields_of (current st) = Returns fs →
    JS.get fs "photos" = Data (VArr photos) →
    (Forall (fun p => id_is id p = Returns false) photos →
     fst (removePhoto id st)
     = res_status_json 404 (error_body "Photo not found")) ∧
    (∀ pre p post,
       photos = pre ++ p :: post →
       Forall (fun q => id_is id q = Returns false) pre →
       id_is id p = Returns true →
       Forall (fun q => id_is id q = Returns false) post →
       uploads st !! id ≠ Some Locked →
       ∃ st' listed,
         removePhoto id st
         = (res_json (Data (VObj [("status", VStr "ok")])), st') ∧
         fst (listPhotos st') = Returns (Reply 200 (Some (VArr listed))) ∧
         Forall (fun q => id_is id q = Returns false) listed ∧
         fst (removePhoto id st')
         = res_status_json 404 (error_body "Photo not found")).
Proof.
  intros st id fs photos Hfs Hphotos. split.
  - intros Hnone. by rewrite (removePhoto_no_match st id fs photos).
  - intros pre p post -> Hpre Hp Hpost Hfile.
    destruct (removePhoto_first_match st id fs pre p post Hfs Hphotos Hpre Hp Hfile)
      as (st' & Hrm & Hdata & _).
    destruct (written_photos st' fs (pre ++ post) Hdata) as [Hfs' Hget].
    assert (Forall (fun q => id_is id q = Returns false)
              (map JS.revive (pre ++ post))) as Hgone.
    { apply Forall_id_is_revive, Forall_app. by split. }
    exists st', (map JS.revive (pre ++ post)). split; [done|].
    split; [|split; [done|]].
    + by apply (listPhotos_written st' fs).
    + by rewrite (removePhoto_no_match st' id _ _ Hfs' Hget Hgone).
Qed.

Lemma removePhoto_not_found_or_removed_witness :
  let st := installed [photo "a.jpg" "first" 1; photo "b.jpg" "other" 2]
              {[ "b.jpg" := File ]} in
  fst (removePhoto "c.jpg" st)
  = res_status_json 404 (error_body "Photo not found") ∧
  ∃ st' listed,
    removePhoto "b.jpg" st
    = (res_json (Data (VObj [("status", VStr "ok")])), st') ∧
    fst (listPhotos st') = Returns (Reply 200 (Some (VArr listed))) ∧
    Forall (fun q => id_is "b.jpg" q = Returns false) listed ∧
    fst (removePhoto "b.jpg" st')
    = res_status_json 404 (error_body "Photo not found").
Proof.
  intros st.
  assert (JS.fields_of (current st)
          = Returns (JS.set initial_defaultContent "photos"
                       (VArr [photo "a.jpg" "first" 1;
                              photo "b.jpg" "other" 2]))) as Hfs
    by reflexivity.
  split.
  - apply (removePhoto_not_found_or_removed st "c.jpg" _ _ Hfs eq_refl).
    repeat constructor.
  - apply (proj2 (removePhoto_not_found_or_removed st "b.jpg" _ _ Hfs eq_refl)
             [photo "a.jpg" "first" 1] (photo "b.jpg" "other" 2) []).
    + reflexivity.
    + repeat constructor.
    + reflexivity.
    + constructor.
    + vm_compute. discriminate.
Defined.

(** Where C2 fails: with two photos of one id, the id is still listed after
    removePhoto, and a second removePhoto of it succeeds. *)
Lemma removePhoto_duplicate_id_remains :
  let st := installed [photo "a.jpg" "first" 1; photo "a.jpg" "second" 3]
              {[ "a.jpg" := File ]} in
  let st' := snd (removePhoto "a.jpg" st) in
  fst (removePhoto "a.jpg" st) = res_json (Data (VObj [("status", VStr "ok")])) ∧
  fst (listPhotos st')
  = Returns (Reply 200 (Some (VArr [photo "a.jpg" "second" 3]))) ∧
  id_is "a.jpg" (photo "a.jpg" "second" 3) = Returns true ∧
  fst (removePhoto "a.jpg" st')
  ≠ res_status_json 404 (error_body "Photo not found").
Proof. vm_compute. repeat split. discriminate. Qed.

(** The photos section absent: removePhoto throws where listPhotos answers
    with the empty sequence and addPhoto starts a new one. *)
Lemma removePhoto_without_photos_section :
  let st := State (Some (JS.Encodes (VObj []))) ∅ initial_defaultContent in
  fst (removePhoto "a.jpg" st) = Throws TypeError ∧
  fst (listPhotos st) = Returns (Reply 200 (Some (VArr []))) ∧
  fst (listPhotos (snd (addPhoto (Some "a.jpg") None None st)))
  = Returns (Reply 200 (Some (VArr [photo "a.jpg" "Photo" 0]))).
Proof. vm_compute. repeat split. Qed.

(** C3, as the code has it.  When the stored binary of the photo is absent
    from the uploads directory, removePhoto does not fail over it: the
    photo entry is removed and the updated document is persisted. *)
Theorem removePhoto_file_absent :
  ∀ st id fs pre p post,
    JS.fields_of (current st) = Returns fs →
    JS.get fs "photos" = Data (VArr (pre ++ p :: post)) →
    Forall (fun q => id_is id q = Returns false) pre →
    id_is id p = Returns true →
    uploads st !! id = None →
    ∃ st',
      removePhoto id st
      = (res_json (Data (VObj [("status", VStr "ok")])), st') ∧
      data_file st'
      = Some (JS.JSON_stringify
                (VObj (JS.set fs "photos" (VArr (pre ++ post))))) ∧
      fst (listPhotos st')
      = Returns (Reply 200 (Some (VArr (map JS.revive (pre ++ post))))).
Proof.
  intros st id fs pre p post Hfs Hphotos Hpre Hp Hfile.
  destruct (removePhoto_first_match st id fs pre p post Hfs Hphotos Hpre Hp)
    as (st' & Hrm & Hdata & _); [by rewrite Hfile|].
  exists st'. split; [done|]. split; [done|].
  by apply (listPhotos_written st' fs).
Qed.

Lemma removePhoto_file_absent_witness :
  let st := installed [photo "a.jpg" "first" 1; photo "b.jpg" "other" 2] ∅ in
  ∃ st',
    removePhoto "a.jpg" st
    = (res_json (Data (VObj [("status", VStr "ok")])), st') ∧
    data_file st'
    = Some (JS.JSON_stringify
              (VObj (JS.set
                       (JS.set initial_defaultContent "photos"
                          (VArr [photo "a.jpg" "first" 1;
                                 photo "b.jpg" "other" 2]))
                       "photos" (VArr ([] ++ [photo "b.jpg" "other" 2]))))) ∧
    fst (listPhotos st')
    = Returns (Reply 200 (Some (VArr (map JS.revive
                                        ([] ++ [photo "b.jpg" "other" 2]))))).
Proof.
  intros st.
  apply (removePhoto_file_absent st "a.jpg"
           (JS.set initial_defaultContent "photos"
              (VArr [photo "a.jpg" "first" 1; photo "b.jpg" "other" 2]))
           [] (photo "a.jpg" "first" 1) [photo "b.jpg" "other" 2]).
  - reflexivity.
  - reflexivity.
  - constructor.
  - reflexivity.
  - reflexivity.
Defined.

(** Where C3 fails: the file is there and cannot be deleted.  The exception
    of [fs.unlinkSync] leaves the handler, the entry stays and nothing is
    written. *)
Lemma removePhoto_unlink_failure_surfaces :
  let st := installed [photo "a.jpg" "first" 1] {[ "a.jpg" := Locked ]} in
  removePhoto "a.jpg" st = (Throws SystemError, st) ∧
  fst (listPhotos (snd (removePhoto "a.jpg" st)))
  = Returns (Reply 200 (Some (VArr [photo "a.jpg" "first" 1]))).
Proof. vm_compute. split; reflexivity. Qed.

(** ** Sections *)

Lemma getSection_current st fs name :
  JS.fields_of (current st) = Returns fs →
  getSection name st
  = (if negb (JS.truthy (JS.get fs name))
     then res_status_json 404 (error_body "Section not found")
     else res_json (JS.get fs name),
     snd (readContent st)).
Proof.
  unfold current, getSection, JS.member.
  destruct (readContent st) as [content st1]. intros ->. simpl.
  by destruct (JS.truthy (JS.get fs name)).
Qed.


Lemma replaceSection_known st fs section body :
  JS.fields_of (current st) = Returns fs →
  JS.hasOwnProperty fs section = true →
  ∃ st',
    replaceSection section body st
    = (res_json (Data (VObj [("status", VStr "ok"); ("section", body)])),
       st') ∧
    data_file st' = Some (JS.JSON_stringify (VObj (JS.set fs section body))).
Proof.
  unfold current, replaceSection.
  destruct (readContent st) as [content st1]. intros -> Hown. simpl.
  rewrite Hown. simpl. eexists. split; reflexivity.
Qed.

Lemma structurally_valid_truthy x :
  structurally_valid x = true → JS.truthy (Data x) = true ∧ JS.revive x = x.
Proof.
  unfold structurally_valid. intros [Hjson Hshape]%andb_true_iff.
  split; [by destruct x|by apply revive_json].
Qed.

(** C5.  Replacing a section the document has (contact, on every document
    that has a contact section) with a structurally valid value and then
    reading the section returns exactly that value. *)
Theorem replaceSection_getSection_round_trip :
  ∀ st fs section X,
    JS.fields_of (current st) = Returns fs →
    JS.hasOwnProperty fs section = true →
    structurally_valid X = true →
    ∃ st',
      replaceSection section X st
      = (Returns (Reply 200
           (Some (VObj [("status", VStr "ok"); ("section", X)]))), st') ∧
      getSection section st' = (Returns (Reply 200 (Some X)), st').
Proof.
  intros st fs section X Hfs Hown [Htruthy HX]%structurally_valid_truthy.
  destruct (replaceSection_known st fs section X Hfs Hown) as (st' & Hput & Hfile).
  exists st'. split.
  - rewrite Hput. unfold res_json. simpl. by rewrite HX.
  - assert (JS.fields_of (current st')
            = Returns (map (fun kv => (fst kv, JS.revive (snd kv)))
                         (JS.set fs section X))) as Hfs'
      by by rewrite (current_encodes _ _ Hfile).
    rewrite (getSection_current st' _ section Hfs').
    rewrite (readContent_encodes _ _ Hfile). simpl.
    rewrite get_revive, get_set_eq, HX, Htruthy. simpl.
    unfold res_json. simpl. by rewrite HX.
Qed.

Lemma replaceSection_getSection_round_trip_witness :
  ∃ st',
    replaceSection "contact" (VObj [("email", VStr "me@example.com")]) fresh
    = (Returns (Reply 200
         (Some (VObj [("status", VStr "ok");
                      ("section", VObj [("email", VStr "me@example.com")])]))),
       st') ∧
    getSection "contact" st'
    = (Returns (Reply 200 (Some (VObj [("email", VStr "me@example.com")]))),
       st').
Proof.
  apply (replaceSection_getSection_round_trip fresh initial_defaultContent
           "contact" (VObj [("email", VStr "me@example.com")]));
    reflexivity.
Defined.




(** ** The admin key *)

Lemma ADMIN_KEY_nonempty env : (ADMIN_KEY env =? "") = false.
Proof.
  destruct env as [s|]; simpl; [|done].
  destruct (s =? "") eqn:Hs; done.
Qed.

(** C9.  authorize returns true exactly when the candidate is the
    configured secret, and false when the candidate is absent or anything
    else; against the secret s3cret it rejects the empty string, undefined
    and wrong, and accepts s3cret; requireAdminKey passes the state on as
    it found it, to the next handler or back with the 401. *)
Theorem authorize_exact_equality :
  (∀ env key,
     authorize env key = true ↔ key = Data (VStr (ADMIN_KEY env))) ∧
  (authorize (Some "s3cret") (Data (VStr "")) = false ∧
   authorize (Some "s3cret") Undefined = false ∧
   authorize (Some "s3cret") (Data (VStr "wrong")) = false ∧
   authorize (Some "s3cret") (Data (VStr "s3cret")) = true) ∧
  (∀ env req next st,
     requireAdminKey env req next st
     = if authorize env (admin_key_of req) then next st
       else (res_status_json 401
               (error_body "Unauthorized: invalid admin key"), st)).
Proof.
  split; [|split].
  - intros env key. unfold authorize. split.
    + rewrite negb_true_iff, orb_false_iff, !negb_false_iff.
      intros [_ Heq]. destruct key as [|[| | | |s| |]|]; try done.
      simpl in Heq. by apply String.eqb_eq in Heq as ->.
    + intros ->. simpl. by rewrite ADMIN_KEY_nonempty, String.eqb_refl.
  - done.
  - intros env req next st. unfold requireAdminKey.
    by destruct (authorize env (admin_key_of req)).
Qed.

(** ** Names that are not sections *)

(** C4, at the failing input.  constructor is not a key of the default
    document, and replaceSection answers NotFound for it; getSection
    answers 200, with the empty body a function serialises to.  A key that
    holds a falsy value is answered with NotFound. *)
Theorem getSection_inherited_name :
  JS.hasOwnProperty initial_defaultContent "constructor" = false ∧
  fst (getSection "constructor" fresh) = Returns (Reply 200 None) ∧
  fst (replaceSection "constructor" (VObj []) fresh)
  = res_status_json 404 (error_body "Section not found") ∧
  (let st := State (Some (JS.Encodes (VObj [("motd", VStr "")]))) ∅
               initial_defaultContent in
   JS.hasOwnProperty [("motd", VStr "")] "motd" = true ∧
   fst (getSection "motd" st)
   = res_status_json 404 (error_body "Section not found")).
Proof. vm_compute. repeat split. Qed.

(** ** Unparsable data files *)

Lemma load_garbled st raw :
  data_file st = Some (JS.Garbled raw) →
  ∃ st',
    load st = (res_json (Data (VObj (defaultContent st))), st') ∧
    data_file st' = Some (JS.JSON_stringify (VObj (defaultContent st))) ∧
    defaultContent st' = defaultContent st ∧
    fst (load st') = res_json (Data (VObj (defaultContent st))).
Proof.
  intros Hfile. unfold load, readContent. rewrite Hfile. simpl.
  eexists. split; [reflexivity|]. split; [done|]. split; [done|].
  unfold res_json. simpl. by rewrite revive_fields_idem.
Qed.

(** In a process that has not touched [defaultContent] the reset is to the
    built-in default. *)
Lemma load_garbled_untouched raw dir :
  ∃ st',
    load (State (Some (JS.Garbled raw)) dir initial_defaultContent)
    = (res_json (Data (VObj initial_defaultContent)), st') ∧
    fst (load st') = res_json (Data (VObj initial_defaultContent)).
Proof.
  destruct (load_garbled (State (Some (JS.Garbled raw)) dir
                            initial_defaultContent) raw eq_refl)
    as (st' & Hload & _ & _ & Hagain).
  by exists st'.
Qed.

(** C7, at the failing input.  A photo is added on a fresh installation:
    [readContent] hands out [defaultContent] itself and addPhoto pushes the
    photo into it.  When the data file is unparsable later, load does not
    return the built-in default: it returns, and writes, a document with
    that photo. *)
Theorem load_resets_to_mutated_default :
  let st1 := snd (addPhoto (Some "a.jpg") None None fresh) in
  let st2 := with_data_file (JS.Garbled "{") st1 in
  fst (load st2) ≠ res_json (Data (VObj initial_defaultContent)) ∧
  fst (load st2)
  = res_json (Data (VObj (JS.set initial_defaultContent "photos"
                            (VArr [photo "a.jpg" "Photo" 0])))) ∧
  fst (listPhotos (snd (load st2)))
  = Returns (Reply 200 (Some (VArr [photo "a.jpg" "Photo" 0]))).
Proof. vm_compute. repeat split. discriminate. Qed.

(** ** Reading *)

(** X1.  load is idempotent: a second load answers as the first and leaves
    the state the first one left; all that the first one may change is the
    data file, when it was missing or unparsable. *)
Theorem load_idempotent :
  ∀ st,
    load (snd (load st)) = (fst (load st), snd (load st)) ∧
    uploads (snd (load st)) = uploads st ∧
    defaultContent (snd (load st)) = defaultContent st.
Proof.
  intros st. unfold load, readContent, res_json.
  destruct (data_file st) as [[raw|doc]|] eqn:Hfile; simpl;
    rewrite ?Hfile; simpl; by rewrite ?revive_fields_idem.
Qed.

Lemma readContent_parsable st v :
  data_file st = Some (JS.Encodes v) → snd (readContent st) = st.
Proof. intros H. by rewrite (readContent_encodes _ _ H). Qed.

Lemma readContent_keeps st :
  uploads (snd (readContent st)) = uploads st ∧
  defaultContent (snd (readContent st)) = defaultContent st.
Proof. unfold readContent. by destruct (data_file st) as [[raw|v]|]. Qed.

Lemma getSection_state name st : snd (getSection name st) = snd (readContent st).
Proof.
  unfold getSection. destruct (readContent st) as [content st1]. simpl.
  destruct (JS.member (deref st1 content) name) as [x| |]; simpl; [|done..].
  by destruct (JS.truthy x).
Qed.

Lemma listPhotos_state st : snd (listPhotos st) = snd (readContent st).
Proof.
  unfold listPhotos. destruct (readContent st) as [content st1]. simpl.
  by destruct (JS.member (deref st1 content) "photos").
Qed.

Lemma load_state st : snd (load st) = snd (readContent st).
Proof. unfold load. by destruct (readContent st). Qed.

(** X2.  The public reads change nothing but a missing or unparsable data
    file: load, getSection and listPhotos leave the uploads directory and
    [defaultContent] as they are, and with a parsable data file they leave
    the whole state as it is, whatever they answer. *)
Theorem reads_leave_the_state :
  ∀ st name,
    let after := [snd (load st); snd (getSection name st); snd (listPhotos st)] in
    Forall (fun st' => uploads st' = uploads st ∧
                       defaultContent st' = defaultContent st) after ∧
    (∀ v, data_file st = Some (JS.Encodes v) → Forall (fun st' => st' = st) after).
Proof.
  intros st name after. subst after.
  rewrite load_state, getSection_state, listPhotos_state. split.
  - repeat constructor; apply readContent_keeps.
  - intros v Hfile. rewrite (readContent_parsable _ _ Hfile).
    by repeat constructor.
Qed.

Lemma reads_leave_the_state_witness :
  let st := installed [photo "a.jpg" "first" 1] {[ "a.jpg" := File ]} in
  Forall (fun st' => st' = st)
    [snd (load st); snd (getSection "toString" st); snd (listPhotos st)].
Proof.
  intros st.
  apply (proj2 (reads_leave_the_state st "toString")
           (VObj (JS.set initial_defaultContent "photos"
                    (VArr [photo "a.jpg" "first" 1])))).
  reflexivity.
Defined.



(** X4.  For a name that [Object.prototype] does not have, getSection
    answers NotFound exactly when the document has no such key of its own
    or holds a falsy value there (null, false, 0, NaN, the empty string),
    and answers the value otherwise. *)
Theorem getSection_not_found_iff :
  ∀ st fs name,
    JS.fields_of (current st) = Returns fs →
    existsb (String.eqb name) JS.Object_prototype = false →
    (fst (getSection name st)
     = res_status_json 404 (error_body "Section not found")
     ↔ ∀ v, JS.own fs name = Some v → JS.truthy (Data v) = false) ∧
    (∀ v, JS.own fs name = Some v → JS.truthy (Data v) = true →
          fst (getSection name st) = Returns (Reply 200 (Some (JS.revive v)))).
Proof.
  intros st fs name Hfs Hproto.
  rewrite (getSection_current st fs name Hfs). cbn [fst].
  unfold JS.get, res_json, res_status_json. rewrite Hproto.
  destruct (JS.own fs name) as [v|].
  - destruct (JS.truthy (Data v)) eqn:Htruthy; cbn [negb JS.wire].
    + split; [|by intros ? [= <-]]. split; [done|].
      intros H. specialize (H v eq_refl). congruence.
    + split; [|intros ? [= <-]; congruence].
      split; [|done]. by intros _ ? [= <-].
  - simpl. split; [|done]. split; done.
Qed.

Lemma getSection_not_found_iff_witness :
  (fst (getSection "gallery" fresh)
   = res_status_json 404 (error_body "Section not found")
   ↔ ∀ v, JS.own initial_defaultContent "gallery" = Some v →
          JS.truthy (Data v) = false) ∧
  (∀ v, JS.own initial_defaultContent "gallery" = Some v →
        JS.truthy (Data v) = true →
        fst (getSection "gallery" fresh)
        = Returns (Reply 200 (Some (JS.revive v)))).
Proof.
  apply (getSection_not_found_iff fresh initial_defaultContent "gallery");
    reflexivity.
Defined.

(** ** Who gets through *)

Lemma authorize_iff env key :
  authorize env key = true ↔ key = Data (VStr (ADMIN_KEY env)).
Proof.
  unfold authorize. split.
  - rewrite negb_true_iff, orb_false_iff, !negb_false_iff.
    intros [_ Heq]. destruct key as [|[| | | |s| |]|]; try done.
    simpl in Heq. by apply String.eqb_eq in Heq as ->.
  - intros ->. simpl. by rewrite ADMIN_KEY_nonempty, String.eqb_refl.
Qed.

(** X5.  The key of a request is the first truthy one of the header, the
    query and the body: a request gets through exactly when that one is
    [ADMIN_KEY], so a wrong key in the header is not made good by the right
    key in the query or the body. *)
Theorem admin_key_first_truthy :
  ∀ env header query body,
    let K := Data (VStr (ADMIN_KEY env)) in
    authorize env (admin_key_of (Credentials header query body)) = true
    ↔ header = K
      ∨ (JS.truthy header = false ∧ query = K)
      ∨ (JS.truthy header = false ∧ JS.truthy query = false ∧ body = K).
Proof.
  intros env header query body K. rewrite authorize_iff.
  assert (JS.truthy K = true) as HK
    by (simpl; by rewrite ADMIN_KEY_nonempty).
  unfold admin_key_of, JS.or. simpl. fold K.
  destruct (JS.truthy header) eqn:Hh; simpl.
  - rewrite Hh. split; [by left|]. intros [?|[[? _]|[? _]]]; done.
  - destruct (JS.truthy query) eqn:Hq.
    + split; [by right; left|].
      intros [->|[[_ ?]|(_ & ? & _)]]; [congruence|done|done].
    + split; [by right; right|].
      intros [->|[[_ ->]|(_ & _ & ?)]]; [congruence|congruence|done].
Qed.

(** X6.  Without the key nothing happens: an admin route answers 401 and
    leaves the data file, the uploads directory and [defaultContent] as
    they are; the file of a rejected upload is not stored. *)
Theorem unauthorized_changes_nothing :
  ∀ env req st section body file label position id,
    authorize env (admin_key_of req) = false →
    let rejected :=
      (res_status_json 401 (error_body "Unauthorized: invalid admin key"),
       st) in
    PUT_content env req section body st = rejected ∧
    POST_photos env req file label position st = rejected ∧
    DELETE_photos env req id st = rejected.
Proof.
  intros env req st section body file label position id Hno rejected.
  unfold PUT_content, POST_photos, DELETE_photos, requireAdminKey.
  by rewrite Hno.
Qed.

Lemma unauthorized_changes_nothing_witness :
  let req := Credentials (Data (VStr "guess")) (Data (VStr "s3cret")) Undefined in
  let rejected :=
    (res_status_json 401 (error_body "Unauthorized: invalid admin key"),
     fresh) in
  PUT_content (Some "s3cret") req "contact" (VObj []) fresh = rejected ∧
  POST_photos (Some "s3cret") req (Some "a.jpg") None None fresh = rejected ∧
  DELETE_photos (Some "s3cret") req "a.jpg" fresh = rejected.
Proof.
  intros req rejected.
  apply (unauthorized_changes_nothing (Some "s3cret") req fresh "contact"
           (VObj []) (Some "a.jpg") None None "a.jpg").
  reflexivity.
Defined.

(** ** Replacing sections, one after the other *)

Lemma revive_set fs k v :
  map (fun kv => (fst kv, JS.revive (snd kv))) (JS.set fs k v)
  = JS.set (map (fun kv => (fst kv, JS.revive (snd kv))) fs) k (JS.revive v).
Proof.
  induction fs as [|[k' v'] fs IH]; simpl; [done|].
  destruct (k' =? k); simpl; [done|]. by rewrite IH.
Qed.

Lemma hasOwnProperty_revive fs k :
  JS.hasOwnProperty (map (fun kv => (fst kv, JS.revive (snd kv))) fs) k
  = JS.hasOwnProperty fs k.
Proof.
  unfold JS.hasOwnProperty. rewrite own_revive. by destruct (JS.own fs k).
Qed.

Lemma hasOwnProperty_set fs k k' v :
  JS.hasOwnProperty fs k' = true → JS.hasOwnProperty (JS.set fs k v) k' = true.
Proof.
  unfold JS.hasOwnProperty. intros Hown.
  destruct (String.eqb_spec k k') as [Heq|Hne].
  - subst k'. by rewrite own_set_eq.
  - by rewrite own_set_ne.
Qed.

Lemma set_comm fs a b v w :
  a ≠ b → JS.hasOwnProperty fs a = true → JS.hasOwnProperty fs b = true →
  JS.set (JS.set fs a v) b w = JS.set (JS.set fs b w) a v.
Proof.
  unfold JS.hasOwnProperty. intros Hne.
  induction fs as [|[k x] fs IH]; simpl; [done|].
  destruct (String.eqb_spec k a) as [Hka|Hka];
    destruct (String.eqb_spec k b) as [Hkb|Hkb]; simpl.
  - congruence.
  - intros _ _. subst k. apply String.eqb_neq in Hne as Hab. rewrite Hab.
    by rewrite String.eqb_refl.
  - intros _ _. subst k. assert (b ≠ a) as Hba by done.
    apply String.eqb_neq in Hba as ->. by rewrite String.eqb_refl.
  - intros Ha Hb. apply String.eqb_neq in Hka as ->.
    apply String.eqb_neq in Hkb as ->. by rewrite IH.
Qed.

(** The data file after a successful replaceSection, from the fields the
    request found. *)
Lemma replaceSection_file st fs section body :
  JS.fields_of (current st) = Returns fs →
  JS.hasOwnProperty fs section = true →
  fst (replaceSection section body st)
  = res_json (Data (VObj [("status", VStr "ok"); ("section", body)])) ∧
  data_file (snd (replaceSection section body st))
  = Some (JS.Encodes (VObj (JS.set
            (map (fun kv => (fst kv, JS.revive (snd kv))) fs)
            section (JS.revive body)))) ∧
  uploads (snd (replaceSection section body st)) = uploads st.
Proof.
  intros Hfs Hown.
  unfold current, replaceSection in *.
  pose proof (readContent_uploads st) as Hup.
  destruct (readContent st) as [content st1]. simpl in *.
  rewrite Hfs. simpl. rewrite Hown. simpl.
  split; [done|]. split.
  - unfold JS.JSON_stringify. simpl. by rewrite revive_set.
  - by destruct content.
Qed.

(** X7.  replaceSection overwrites: after two replacements of a section
    the data file is what the second one alone would have written, and
    load answers the same. *)
Theorem replaceSection_last_write_wins :
  ∀ st fs section v w,
    JS.fields_of (current st) = Returns fs →
    JS.hasOwnProperty fs section = true →
    let twice := snd (replaceSection section w
                        (snd (replaceSection section v st))) in
    let once := snd (replaceSection section w st) in
    data_file twice = data_file once ∧
    fst (load twice) = fst (load once) ∧
    fst (replaceSection section w (snd (replaceSection section v st)))
    = fst (replaceSection section w st).
Proof.
  intros st fs section v w Hfs Hown twice once.
  destruct (replaceSection_file st fs section v Hfs Hown) as (_ & Hfile1 & _).
  destruct (replaceSection_file st fs section w Hfs Hown) as (Hr & Hfile & _).
  destruct (replaceSection_file (snd (replaceSection section v st)) _
              section w (f_equal JS.fields_of (current_encodes _ _ Hfile1)))
    as (Hr2 & Hfile2 & _).
  { by apply hasOwnProperty_set; rewrite hasOwnProperty_revive. }
  assert (data_file twice = data_file once) as Heq.
  { subst twice once. rewrite Hfile2, Hfile.
    by rewrite revive_set, revive_fields_idem, revive_idem, set_set. }
  split; [done|]. split; [|by rewrite Hr, Hr2].
  unfold load. rewrite (readContent_encodes once _ Hfile).
  subst once. rewrite Hfile in Heq.
  by rewrite (readContent_encodes twice _ Heq).
Qed.

Lemma replaceSection_last_write_wins_witness :
  let twice := snd (replaceSection "contact" (VObj [("email", VStr "b@x")])
                      (snd (replaceSection "contact" (VArr []) fresh))) in
  let once := snd (replaceSection "contact" (VObj [("email", VStr "b@x")])
                     fresh) in
  data_file twice = data_file once ∧
  fst (load twice) = fst (load once) ∧
  fst (replaceSection "contact" (VObj [("email", VStr "b@x")])
         (snd (replaceSection "contact" (VArr []) fresh)))
  = fst (replaceSection "contact" (VObj [("email", VStr "b@x")]) fresh).
Proof.
  apply (replaceSection_last_write_wins fresh initial_defaultContent
           "contact" (VArr []) (VObj [("email", VStr "b@x")]));
    reflexivity.
Defined.

(** X8.  Replacements of two different sections commute: in either order
    they leave the same data file. *)
Theorem replaceSection_commute :
  ∀ st fs a b v w,
    JS.fields_of (current st) = Returns fs →
    JS.hasOwnProperty fs a = true →
    JS.hasOwnProperty fs b = true →
    a ≠ b →
    data_file (snd (replaceSection b w (snd (replaceSection a v st))))
    = data_file (snd (replaceSection a v (snd (replaceSection b w st)))).
Proof.
  intros st fs a b v w Hfs Ha Hb Hab.
  destruct (replaceSection_file st fs a v Hfs Ha) as (_ & Hfa & _).
  destruct (replaceSection_file st fs b w Hfs Hb) as (_ & Hfb & _).
  destruct (replaceSection_file (snd (replaceSection a v st)) _ b w
              (f_equal JS.fields_of (current_encodes _ _ Hfa)))
    as (_ & Hfab & _).
  { by apply hasOwnProperty_set; rewrite hasOwnProperty_revive. }
  destruct (replaceSection_file (snd (replaceSection b w st)) _ a v
              (f_equal JS.fields_of (current_encodes _ _ Hfb)))
    as (_ & Hfba & _).
  { by apply hasOwnProperty_set; rewrite hasOwnProperty_revive. }
  rewrite Hfab, Hfba. do 3 f_equal.
  rewrite !revive_set, !revive_fields_idem, !revive_idem.
  apply set_comm; [done|by rewrite hasOwnProperty_revive..].
Qed.

Lemma replaceSection_commute_witness :
  data_file (snd (replaceSection "contact" (VObj [])
                    (snd (replaceSection "services" (VArr []) fresh))))
  = data_file (snd (replaceSection "services" (VArr [])
                      (snd (replaceSection "contact" (VObj []) fresh)))).
Proof.
  apply (replaceSection_commute fresh initial_defaultContent
           "services" "contact" (VArr []) (VObj []));
    [reflexivity..|discriminate].
Defined.

(** ** What adding and removing photos leaves alone *)

Lemma keys_set fs k v :
  keys (JS.set fs k v)
  = if JS.hasOwnProperty fs k then keys fs else keys fs ++ [k].
Proof.
  unfold JS.hasOwnProperty, keys.
  induction fs as [|[k' v'] fs IH]; simpl; [done|].
  destruct (String.eqb_spec k' k) as [->|Hne]; simpl; [done|].
  rewrite IH. by destruct (JS.own fs k).
Qed.

(** After a handler has written the document with one field set, the
    other sections read as before. *)
Lemma written_frame st st' fs k v :
  JS.fields_of (current st) = Returns fs →
  data_file st' = Some (JS.JSON_stringify (VObj (JS.set fs k v))) →
  (∃ fs', JS.fields_of (current st') = Returns fs' ∧
          keys fs' = if JS.hasOwnProperty fs k then keys fs
                     else keys fs ++ [k]) ∧
  ∀ other, other ≠ k →
    fst (getSection other st') = fst (getSection other st).
Proof.
  intros Hfs Hfile.
  assert (JS.fields_of (current st')
          = Returns (map (fun kv => (fst kv, JS.revive (snd kv)))
                       (JS.set fs k v))) as Hfs'
    by by rewrite (current_encodes _ _ Hfile).
  split.
  - eexists. split; [exact Hfs'|]. by rewrite keys_revive, keys_set.
  - intros other Hother.
    rewrite (getSection_current st fs other Hfs).
    rewrite (getSection_current st' _ other Hfs'). simpl.
    rewrite truthy_get_revive. unfold res_json. rewrite wire_get_revive.
    by rewrite get_set_ne by done.
Qed.

(** X9.  addPhoto changes the photos section only: every other section
    reads as before, the document has the keys it had (and photos, last,
    when it had none), and the uploads directory is as it was. *)
Theorem addPhoto_changes_only_photos :
  ∀ st filename label position fs pos,
    JS.fields_of (current st) = Returns fs →
    number_value (JS.parseInt (field_or position "0")) = Returns pos →
    Forall keyed (photos_in fs) →
    let st' := snd (addPhoto (Some filename) label position st) in
    (∃ fs', JS.fields_of (current st') = Returns fs' ∧
            keys fs' = if JS.hasOwnProperty fs "photos" then keys fs
                       else keys fs ++ ["photos"]) ∧
    (∀ other, other ≠ "photos" →
       fst (getSection other st') = fst (getSection other st)) ∧
    uploads st' = uploads st.
Proof.
  intros st filename label position fs pos Hfs Hpos Hkeyed st'.
  assert (Forall keyed
            (photos_in fs ++
             [VObj [("id", VStr filename);
                    ("url", VStr (String.append "/uploads/" filename));
                    ("label", VStr (field_or label "Photo"));
                    ("position", pos)]])) as Hall.
  { apply Forall_app. split; [done|]. constructor; [|constructor].
    eexists. by eapply number_value_keyed. }
  destruct (sort_by_position _ Hall) as (sorted & Hsort & _).
  destruct (addPhoto_returns st filename label position fs pos sorted
              Hfs Hpos Hsort) as (st1 & Hadd & Hfile & Hup).
  subst st'. rewrite Hadd. simpl.
  destruct (written_frame st st1 fs "photos" (VArr sorted) Hfs Hfile)
    as [Hkeys Hframe].
  by repeat split.
Qed.

Lemma addPhoto_changes_only_photos_witness :
  let st := State (Some (JS.Encodes (VObj [("contact", VObj [])]))) ∅
              initial_defaultContent in
  let st' := snd (addPhoto (Some "a.jpg") None (Some "2") st) in
  (∃ fs', JS.fields_of (current st') = Returns fs' ∧
          keys fs' = if JS.hasOwnProperty [("contact", VObj [])] "photos"
                     then keys [("contact", VObj [])]
                     else keys [("contact", VObj [])] ++ ["photos"]) ∧
  (∀ other, other ≠ "photos" →
     fst (getSection other st') = fst (getSection other st)) ∧
  uploads st' = uploads st.
Proof.
  intros st.
  apply (addPhoto_changes_only_photos st "a.jpg" None (Some "2")
           [("contact", VObj [])] (VNum 2)).
  - reflexivity.
  - reflexivity.
  - constructor.
Defined.

(** X10.  removePhoto changes the photos section only: every other section
    reads as before and the keys of the document are the same; in the
    uploads directory the file of the id is gone and nothing else has
    changed. *)
Theorem removePhoto_changes_only_photos :
  ∀ st id fs pre p post,
    JS.fields_of (current st) = Returns fs →
    JS.get fs "photos" = Data (VArr (pre ++ p :: post)) →
    Forall (fun q => id_is id q = Returns false) pre →
    id_is id p = Returns true →
    uploads st !! id ≠ Some Locked →
    let st' := snd (removePhoto id st) in
    (∃ fs', JS.fields_of (current st') = Returns fs' ∧ keys fs' = keys fs) ∧
    (∀ other, other ≠ "photos" →
       fst (getSection other st') = fst (getSection other st)) ∧
    uploads st' = delete id (uploads st).
Proof.
  intros st id fs pre p post Hfs Hphotos Hpre Hp Hfile st'.
  destruct (removePhoto_first_match st id fs pre p post Hfs Hphotos Hpre Hp
              Hfile) as (st1 & Hrm & Hdata & Hup).
  subst st'. rewrite Hrm. simpl.
  destruct (written_frame st st1 fs "photos" (VArr (pre ++ post)) Hfs Hdata)
    as [(fs' & Hfs' & Hkeys) Hframe].
  split; [|by split].
  exists fs'. split; [done|]. rewrite Hkeys.
  unfold JS.hasOwnProperty. unfold JS.get in Hphotos.
  destruct (JS.own fs "photos"); [done|].
  by destruct (existsb _ _) in Hphotos.
Qed.

Lemma removePhoto_changes_only_photos_witness :
  let st := installed [photo "a.jpg" "first" 1; photo "b.jpg" "other" 2]
              {[ "a.jpg" := File; "b.jpg" := File ]} in
  let st' := snd (removePhoto "b.jpg" st) in
  (∃ fs', JS.fields_of (current st') = Returns fs' ∧
          keys fs' = keys (JS.set initial_defaultContent "photos"
                             (VArr [photo "a.jpg" "first" 1;
                                    photo "b.jpg" "other" 2]))) ∧
  (∀ other, other ≠ "photos" →
     fst (getSection other st') = fst (getSection other st)) ∧
  uploads st' = delete "b.jpg" (uploads st).
Proof.
  intros st.
  apply (removePhoto_changes_only_photos st "b.jpg"
           (JS.set initial_defaultContent "photos"
              (VArr [photo "a.jpg" "first" 1; photo "b.jpg" "other" 2]))
           [photo "a.jpg" "first" 1] (photo "b.jpg" "other" 2) []).
  - reflexivity.
  - reflexivity.
  - repeat constructor.
  - reflexivity.
  - vm_compute. discriminate.
Defined.

(** X11.  A photos section replaced by an object is no sequence any more:
    listPhotos answers that object, removePhoto throws for every id, and
    the next addPhoto drops the object and starts a sequence with its
    photo alone. *)
Theorem photos_replaced_by_object :
  ∀ st fs o id filename label position pos,
    JS.fields_of (current st) = Returns fs →
    JS.hasOwnProperty fs "photos" = true →
    is_json (VObj o) = true →
    number_value (JS.parseInt (field_or position "0")) = Returns pos →
    let st1 := snd (replaceSection "photos" (VObj o) st) in
    fst (listPhotos st1) = Returns (Reply 200 (Some (VObj o))) ∧
    fst (removePhoto id st1) = Throws TypeError ∧
    fst (listPhotos (snd (addPhoto (Some filename) label position st1)))
    = Returns (Reply 200 (Some (VArr
        [VObj [("id", VStr filename);
               ("url", VStr (String.append "/uploads/" filename));
               ("label", VStr (field_or label "Photo"));
               ("position", JS.revive pos)]]))).
Proof.
  intros st fs o id filename label position pos Hfs Hown Hjson Hpos st1.
  destruct (replaceSection_file st fs "photos" (VObj o) Hfs Hown)
    as (_ & Hfile & _). fold st1 in Hfile.
  rewrite (revive_json _ Hjson) in Hfile.
  pose proof (current_encodes _ _ Hfile) as Hcur.
  pose proof (f_equal JS.fields_of Hcur) as Hfs1. simpl in Hfs1.
  assert (JS.get (JS.set (map (fun kv => (fst kv, JS.revive (snd kv))) fs)
                    "photos" (VObj o)) "photos" = Data (VObj o)) as Hget
    by apply get_set_eq.
  split; [|split].
  - unfold listPhotos. rewrite (readContent_encodes _ _ Hfile).
    unfold JS.member. simpl. rewrite Hget. unfold res_json. simpl.
    pose proof (revive_json _ Hjson) as Hr. simpl in Hr. by rewrite Hr.
  - unfold removePhoto. rewrite (readContent_encodes _ _ Hfile). simpl.
    by rewrite Hget.
  - destruct (addPhoto_listed st1 filename label position _ pos Hfs1 Hpos)
      as (st2 & listed & Hadd & Hlist & _ & Hperm & _).
    { unfold photos_in. rewrite Hget. constructor. }
    rewrite Hadd. simpl. rewrite Hlist.
    unfold photos_in in Hperm. rewrite Hget in Hperm. simpl in Hperm.
    by apply Permutation_singleton_r in Hperm as ->.
Qed.

Lemma photos_replaced_by_object_witness :
  let st1 := snd (replaceSection "photos" (VObj [("cover", VStr "a.jpg")])
                    fresh) in
  fst (listPhotos st1)
  = Returns (Reply 200 (Some (VObj [("cover", VStr "a.jpg")]))) ∧
  fst (removePhoto "a.jpg" st1) = Throws TypeError ∧
  fst (listPhotos (snd (addPhoto (Some "b.jpg") None (Some "7") st1)))
  = Returns (Reply 200 (Some (VArr
      [VObj [("id", VStr "b.jpg");
             ("url", VStr (String.append "/uploads/" "b.jpg"));
             ("label", VStr (field_or None "Photo"));
             ("position", JS.revive (VNum 7))]]))).
Proof.
  apply (photos_replaced_by_object fresh initial_defaultContent
           [("cover", VStr "a.jpg")] "a.jpg" "b.jpg" None (Some "7") (VNum 7));
    reflexivity.
Defined.

(** ** A sorted sequence is determined by its position classes *)

Section StableUnique.
Context {A : Type} (key : A → Z).

Lemma stable_sorted_unique (l1 l2 : list A) :
  StronglySorted (fun x y => (key x ≤ key y)%Z) l1 →
  StronglySorted (fun x y => (key x ≤ key y)%Z) l2 →
  (∀ k, filter (fun x => key x = k) l1 = filter (fun x => key x = k) l2) →
  l1 = l2.
Proof.
  intros Hs1. revert l2.
  induction Hs1 as [|a l1 Hs1 IH Ha]; intros l2 Hs2 Hfilter.
  - destruct l2 as [|b l2]; [done|].
    specialize (Hfilter (key b)). by rewrite filter_cons_True in Hfilter.
  - destruct Hs2 as [|b l2 Hs2 Hb].
    { specialize (Hfilter (key a)). by rewrite filter_cons_True in Hfilter. }
    assert (key a = key b) as Hkey.
    { destruct (decide (key a = key b)) as [|Hne]; [done|].
      pose proof (Hfilter (key a)) as Hfa. pose proof (Hfilter (key b)) as Hfb.
      rewrite filter_cons_True, (filter_cons_False _ b) in Hfa by done.
      rewrite (filter_cons_False _ a), filter_cons_True in Hfb by done.
      assert (a ∈ l2) as Hin2.
      { eapply (list_elem_of_filter (fun x => key x = key a)).
        rewrite <- Hfa. apply list_elem_of_here. }
      assert (b ∈ l1) as Hin1.
      { eapply (list_elem_of_filter (fun x => key x = key b)).
        rewrite Hfb. apply list_elem_of_here. }
      rewrite Forall_forall in Ha, Hb.
      specialize (Ha b Hin1). specialize (Hb a Hin2). lia. }
    pose proof (Hfilter (key a)) as Hhead.
    rewrite !filter_cons_True in Hhead by done.
    injection Hhead as <- Hrest. f_equal. apply IH; [done|].
    intros k. destruct (decide (key a = k)) as [<-|Hk]; [done|].
    specialize (Hfilter k). by rewrite !filter_cons_False in Hfilter.
Qed.
End StableUnique.

Lemma StronglySorted_weaken {A : Type} (R R' : A → A → Prop) (l : list A) :
  (∀ x y, R x y → R' x y) → StronglySorted R l → StronglySorted R' l.
Proof.
  intros Himpl. induction 1 as [|x l _ IH Hall]; constructor; [done|].
  eapply Forall_impl; [exact Hall|]. apply Himpl.
Qed.

Lemma ascending_key_of p q : ascending p q → (key_of p ≤ key_of q)%Z.
Proof. intros (a & b & Ha & Hb & Hab). unfold key_of. by rewrite Ha, Hb. Qed.

Lemma sorted_by_position_unique (l1 l2 : list value) :
  Forall keyed l1 → Forall keyed l2 →
  StronglySorted ascending l1 → StronglySorted ascending l2 →
  (∀ k, filter (has_position k) l1 = filter (has_position k) l2) →
  l1 = l2.
Proof.
  intros Hk1 Hk2 Hs1 Hs2 Hfilter.
  apply (stable_sorted_unique key_of).
  - eapply StronglySorted_weaken; [|exact Hs1]. apply ascending_key_of.
  - eapply StronglySorted_weaken; [|exact Hs2]. apply ascending_key_of.
  - intros k. rewrite <- !filter_has_position by done. apply Hfilter.
Qed.

Lemma app_cons_eq_snoc {A : Type} (l1 l2 l3 : list A) (x : A) :
  l1 ++ x :: l2 = l3 ++ [x] → x ∉ l2 → l2 = [] ∧ l1 = l3.
Proof.
  intros Heq Hnotin. destruct l2 as [|y l2 _] using rev_ind.
  - split; [done|]. by apply app_inj_tail in Heq as [? _].
  - exfalso. apply Hnotin.
    change (l1 ++ x :: l2 ++ [y]) with (l1 ++ (x :: l2) ++ [y]) in Heq.
    rewrite app_assoc in Heq. apply app_inj_tail in Heq as [_ ->].
    apply elem_of_app. right. apply list_elem_of_here.
Qed.

Lemma current_upload_single file st : current (upload_single file st) = current st.
Proof.
  unfold upload_single, current, readContent.
  destruct file as [f|]; [|done]. simpl.
  by destruct (data_file st) as [[raw|v]|].
Qed.

(** The photo addPhoto builds has the id it was given. *)
Lemma id_is_new_photo filename url label pos :
  id_is filename
    (VObj [("id", VStr filename); ("url", url); ("label", label);
           ("position", pos)]) = Returns true.
Proof. unfold id_is. simpl. by rewrite String.eqb_refl. Qed.

(** X12.  Adding a photo and removing it again is a round trip on a sorted
    sequence: when no photo has the new id yet, removePhoto of that id
    succeeds and listPhotos answers what it answered before the upload. *)
Theorem addPhoto_removePhoto_round_trip :
  ∀ st filename label position fs old pos,
    JS.fields_of (current st) = Returns fs →
    JS.get fs "photos" = Data (VArr old) →
    number_value (JS.parseInt (field_or position "0")) = Returns pos →
    Forall keyed old →
    StronglySorted ascending old →
    Forall (fun q => id_is filename q = Returns false) old →
    uploads st !! filename ≠ Some Locked →
    let st1 := snd (addPhoto (Some filename) label position st) in
    let st2 := snd (removePhoto filename st1) in
    fst (removePhoto filename st1)
    = res_json (Data (VObj [("status", VStr "ok")])) ∧
    fst (listPhotos st2) = fst (listPhotos st).
Proof.
  intros st filename label position fs old pos Hfs Hget Hpos Hkeyed Hsorted
    Hfresh Hfile st1 st2.
  set (new := VObj [("id", VStr filename);
                    ("url", VStr (String.append "/uploads/" filename));
                    ("label", VStr (field_or label "Photo"));
                    ("position", pos)]).
  assert (photos_in fs = old) as Hold by (unfold photos_in; by rewrite Hget).
  assert (Forall keyed (old ++ [new])) as Hall.
  { apply Forall_app. split; [done|]. constructor; [|constructor].
    eexists. by eapply number_value_keyed. }
  destruct (sort_by_position _ Hall)
    as (sorted & Hsort & Hperm & Hsorted' & Hstable).
  rewrite <- Hold in Hsort.
  destruct (addPhoto_returns st filename label position fs pos sorted
              Hfs Hpos Hsort) as (st1' & Hadd & Hfile1 & Hup1).
  assert (st1 = st1') as -> by (subst st1; by rewrite Hadd).
  (* where the new photo stands in the sorted sequence *)
  assert (new ∈ sorted) as Hin.
  { rewrite Hperm. apply elem_of_app. right. apply list_elem_of_here. }
  apply list_elem_of_split in Hin as (pre & post & ->).
  assert (pre ++ post ≡ₚ old) as Hrest.
  { rewrite <- (app_nil_r old).
    by apply (Permutation_app_inv pre post old [] new). }
  assert (Forall (fun q => id_is filename q = Returns false) (pre ++ post))
    as Hnone by by rewrite Hrest.
  apply Forall_app in Hnone as [Hpre Hpost].
  assert (new ∉ post) as Hnotin.
  { intros Hin. rewrite Forall_forall in Hpost. specialize (Hpost new Hin).
    unfold new in Hpost. by rewrite id_is_new_photo in Hpost. }
  (* the remaining photos are the old ones, in their order *)
  assert (pre ++ post = old) as Hsame.
  { apply sorted_by_position_unique; [by rewrite Hrest|done| |done|].
    - apply StronglySorted_app in Hsorted' as (Hcross & Hs1 & Hs2).
      apply StronglySorted_cons in Hs2 as [_ Hs2].
      apply StronglySorted_app_2; [|done..].
      intros x y Hx Hy. apply Hcross; [done|]. by apply list_elem_of_further.
    - intros k. specialize (Hstable k).
      rewrite !filter_app, !filter_cons, filter_nil in Hstable.
      rewrite filter_app. destruct (decide (has_position k new)).
      + apply app_cons_eq_snoc in Hstable as [Hnil <-].
        * by rewrite Hnil, app_nil_r.
        * intros Hin%list_elem_of_filter. by destruct Hin.
      + by rewrite app_nil_r in Hstable. }
  (* removePhoto finds the new photo first *)
  destruct (written_photos st1' fs (pre ++ new :: post) Hfile1) as [Hfs1 Hget1].
  rewrite map_app in Hget1. simpl in Hget1.
  destruct (removePhoto_first_match st1' filename _
              (map JS.revive pre) (JS.revive new) (map JS.revive post)
              Hfs1 Hget1) as (st2' & Hrm & Hfile2 & _).
  { by apply Forall_id_is_revive. }
  { apply id_is_revive. apply id_is_new_photo. }
  { by rewrite Hup1. }
  assert (st2 = st2') as -> by (subst st2; by rewrite Hrm).
  split; [by rewrite Hrm|].
  rewrite (listPhotos_written st2' _ _ Hfile2).
  rewrite (listPhotos_array st fs old Hfs Hget). simpl.
  rewrite <- map_app, Hsame.
  by rewrite map_map, (map_ext _ _ revive_idem).
Qed.

Lemma addPhoto_removePhoto_round_trip_witness :
  let st := installed [photo "a.jpg" "first" 1; photo "b.jpg" "other" 2] ∅ in
  let st1 := snd (addPhoto (Some "c.jpg") None (Some "1") st) in
  let st2 := snd (removePhoto "c.jpg" st1) in
  fst (removePhoto "c.jpg" st1)
  = res_json (Data (VObj [("status", VStr "ok")])) ∧
  fst (listPhotos st2) = fst (listPhotos st).
Proof.
  intros st.
  apply (addPhoto_removePhoto_round_trip st "c.jpg" None (Some "1")
           (JS.set initial_defaultContent "photos"
              (VArr [photo "a.jpg" "first" 1; photo "b.jpg" "other" 2]))
           [photo "a.jpg" "first" 1; photo "b.jpg" "other" 2] (VNum 1)).
  - reflexivity.
  - reflexivity.
  - reflexivity.
  - repeat constructor; eexists; reflexivity.
  - repeat constructor; exists 1%Z, 2%Z; repeat split; lia.
  - repeat constructor.
  - vm_compute. discriminate.
Defined.

(** ** A null among the photos *)

Lemma by_position_null_r a : keyed a ∨ a = VNull → by_position a VNull = Throws TypeError.
Proof.
  intros [[k Hk]| ->]; [|done].
  unfold by_position. unfold position_key in Hk.
  by destruct (JS.member a "position").
Qed.

Lemma keyed_or_null_split (l : list value) :
  Forall (fun p => keyed p ∨ p = VNull) l → Forall keyed l ∨ VNull ∈ l.
Proof.
  induction 1 as [|p l [Hp| ->] _ [IH|IH]].
  - by left.
  - left. by constructor.
  - right. by apply list_elem_of_further.
  - right. apply list_elem_of_here.
  - right. apply list_elem_of_here.
Qed.

Lemma sort_throws_on_null (l : list value) :
  Forall (fun p => keyed p ∨ p = VNull) l →
  VNull ∈ l → (2 ≤ length l)%nat →
  JS.sort by_position l = Throws TypeError.
Proof.
  induction l as [|x rest IH]; intros Hall Hnull Hlen; [by inversion Hnull|].
  apply Forall_cons in Hall as [Hx Hrest]. simpl.
  destruct (keyed_or_null_split rest Hrest) as [Hkeyed|Hin].
  - (* the null is the first element *)
    apply elem_of_cons in Hnull as [<-|Hin].
    + destruct (sort_by_position rest Hkeyed) as (sorted & -> & Hperm & _).
      simpl. destruct sorted as [|y sorted]; [|done].
      apply Permutation_nil_l in Hperm. subst rest. simpl in Hlen. lia.
    + exfalso. rewrite Forall_forall in Hkeyed.
      destruct (Hkeyed VNull Hin) as [k Hk]. done.
  - destruct rest as [|y [|z rest]].
    + by inversion Hin.
    + apply list_elem_of_singleton in Hin as <-. simpl.
      by rewrite by_position_null_r.
    + rewrite IH; [done..|simpl; lia].
Qed.

(** X13.  One null among two or more photos makes every upload fail: the
    comparator throws on it, the request ends in an uncaught TypeError and
    the data file stays as it was; the uploaded file is in the uploads
    directory all the same, with no photo for it. *)
Theorem POST_photos_throws_on_null_entry :
  ∀ env req st doc photos filename label position pos,
    authorize env (admin_key_of req) = true →
    data_file st = Some (JS.Encodes (VObj doc)) →
    JS.get doc "photos" = Data (VArr photos) →
    Forall (fun p => keyed p ∨ p = VNull) photos →
    VNull ∈ photos →
    number_value (JS.parseInt (field_or position "0")) = Returns pos →
    ∃ st',
      POST_photos env req (Some filename) label position st
      = (Throws TypeError, st') ∧
      data_file st' = data_file st ∧
      uploads st' !! filename = Some File ∧
      fst (listPhotos st') = fst (listPhotos st).
Proof.
  intros env req st doc photos filename label position pos Hauth Hfile Hget
    Hall Hnull Hpos.
  exists (upload_single (Some filename) st).
  assert (POST_photos env req (Some filename) label position st
          = (Throws TypeError, upload_single (Some filename) st)) as Hpost.
  { unfold POST_photos, requireAdminKey. rewrite Hauth. simpl.
    unfold addPhoto, readContent. simpl. rewrite Hfile. simpl.
    rewrite Hpos. simpl. rewrite Hget.
    rewrite sort_throws_on_null; [done| | |].
    - apply Forall_app. split; [done|]. constructor; [|constructor].
      left. eexists. by eapply number_value_keyed.
    - apply elem_of_app. by left.
    - rewrite length_app. simpl. destruct photos; [by inversion Hnull|].
      simpl. lia. }
  split; [done|]. split; [done|]. split; [apply lookup_insert_eq|].
  unfold listPhotos, readContent. simpl. by rewrite Hfile.
Qed.

Lemma POST_photos_throws_on_null_entry_witness :
  let st := installed [photo "a.jpg" "first" 1; VNull] ∅ in
  ∃ st',
    POST_photos None (Credentials (Data (VStr "change-me")) Undefined Undefined)
      (Some "b.jpg") None (Some "2") st
    = (Throws TypeError, st') ∧
    data_file st' = data_file st ∧
    uploads st' !! "b.jpg" = Some File ∧
    fst (listPhotos st') = fst (listPhotos st).
Proof.
  intros st.
  apply (POST_photos_throws_on_null_entry None
           (Credentials (Data (VStr "change-me")) Undefined Undefined) st
           (JS.set initial_defaultContent "photos"
              (VArr [photo "a.jpg" "first" 1; VNull]))
           [photo "a.jpg" "first" 1; VNull] "b.jpg" None (Some "2") (VNum 2)).
  - reflexivity.
  - reflexivity.
  - reflexivity.
  - constructor; [left; by exists 1%Z|]. constructor; [by right|constructor].
  - apply list_elem_of_further, list_elem_of_here.
  - reflexivity.
Defined.

(** ** Photos and their files *)

Lemma POST_photos_authorized env req file label position st :
  authorize env (admin_key_of req) = true →
  POST_photos env req file label position st
  = addPhoto file label position (upload_single file st).
Proof. intros H. unfold POST_photos, requireAdminKey. by rewrite H. Qed.

Lemma DELETE_photos_authorized env req id st :
  authorize env (admin_key_of req) = true →
  DELETE_photos env req id st = removePhoto id st.
Proof. intros H. unfold DELETE_photos, requireAdminKey. by rewrite H. Qed.

Lemma has_file_revive dir p : has_file dir p → has_file dir (JS.revive p).
Proof.
  intros (id & Hid & Hfile). exists id. split; [|done].
  destruct p as [| | | | | |fs]; try done.
  unfold JS.member in *. simpl in *. rewrite get_revive.
  by injection Hid as ->.
Qed.

Lemma has_file_insert dir f p : has_file dir p → has_file (<[f := File]> dir) p.
Proof.
  intros (id & Hid & Hfile). exists id. split; [done|].
  destruct (decide (f = id)) as [->|Hne].
  - rewrite lookup_insert_eq. by eexists.
  - by rewrite lookup_insert_ne.
Qed.


(** X14.  An upload keeps photos and files together: when every photo of
    the document has its file in the uploads directory, so it is after
    POST /api/photos, the new photo included. *)
Theorem POST_photos_keeps_files :
  ∀ env req st filename label position fs pos,
    authorize env (admin_key_of req) = true →
    JS.fields_of (current st) = Returns fs →
    number_value (JS.parseInt (field_or position "0")) = Returns pos →
    Forall keyed (photos_in fs) →
    Forall (has_file (uploads st)) (photos_in fs) →
    ∃ st' listed,
      snd (POST_photos env req (Some filename) label position st) = st' ∧
      fst (listPhotos st') = Returns (Reply 200 (Some (VArr listed))) ∧
      length listed = S (length (photos_in fs)) ∧
      Forall (has_file (uploads st')) listed.
Proof.
  intros env req st filename label position fs pos Hauth Hfs Hpos Hkeyed
    Hfiles.
  rewrite (POST_photos_authorized _ _ _ _ _ _ Hauth).
  rewrite <- (current_upload_single (Some filename)) in Hfs.
  destruct (addPhoto_listed _ filename label position fs pos Hfs Hpos Hkeyed)
    as (st' & listed & Hadd & Hlist & _ & Hperm & _).
  assert (Forall keyed
            (photos_in fs ++
             [VObj [("id", VStr filename);
                    ("url", VStr (String.append "/uploads/" filename));
                    ("label", VStr (field_or label "Photo"));
                    ("position", pos)]])) as Hall.
  { apply Forall_app. split; [done|]. constructor; [|constructor].
    eexists. by eapply number_value_keyed. }
  destruct (sort_by_position _ Hall) as (sorted & Hsort & _).
  destruct (addPhoto_returns _ filename label position fs pos sorted
              Hfs Hpos Hsort) as (st1 & Hadd' & _ & Hup).
  rewrite Hadd in Hadd'. injection Hadd' as <-.
  exists st', listed. rewrite Hadd. split; [done|]. split; [done|]. split.
  - rewrite Hperm, length_map, length_app. simpl. lia.
  - rewrite Hperm, Hup. simpl. apply Forall_map, Forall_app. split.
    + eapply Forall_impl; [exact Hfiles|]. simpl. intros p Hp.
      by apply has_file_revive, has_file_insert.
    + constructor; [|constructor]. apply has_file_revive.
      exists filename. split; [done|]. rewrite lookup_insert_eq. by eexists.
Qed.

Lemma POST_photos_keeps_files_witness :
  let st := installed [photo "a.jpg" "first" 1] {[ "a.jpg" := File ]} in
  ∃ st' listed,
    snd (POST_photos (Some "s3cret")
           (Credentials Undefined (Data (VStr "s3cret")) Undefined)
           (Some "b.jpg") None None st) = st' ∧
    fst (listPhotos st') = Returns (Reply 200 (Some (VArr listed))) ∧
    length listed
    = S (length (photos_in (JS.set initial_defaultContent "photos"
                              (VArr [photo "a.jpg" "first" 1])))) ∧
    Forall (has_file (uploads st')) listed.
Proof.
  intros st.
  apply (POST_photos_keeps_files (Some "s3cret")
           (Credentials Undefined (Data (VStr "s3cret")) Undefined) st
           "b.jpg" None None
           (JS.set initial_defaultContent "photos"
              (VArr [photo "a.jpg" "first" 1])) (VNum 0)).
  - reflexivity.
  - reflexivity.
  - reflexivity.
  - repeat constructor. by exists 1%Z.
  - repeat constructor. exists "a.jpg". split; [reflexivity|].
    vm_compute. by eexists.
Defined.



(** ** One name, two uploads *)

Lemma first_match_split {A : Type} (p : A → completion bool) (l : list A) :
  Forall (fun x => ∃ b, p x = Returns b) l →
  Exists (fun x => p x = Returns true) l →
  ∃ pre x post,
    l = pre ++ x :: post ∧
    Forall (fun y => p y = Returns false) pre ∧ p x = Returns true.
Proof.
  induction 1 as [|y l [[|] Hy] _ IH]; intros Hex.
  - by inversion Hex.
  - exists [], y, l. by repeat split.
  - apply Exists_cons in Hex as [Hex|Hex]; [congruence|].
    destruct (IH Hex) as (pre & x & post & -> & Hpre & Hx).
    exists (y :: pre), x, post. repeat split; [by constructor|done].
Qed.

Lemma second_match_left {A : Type} (P : A → Prop) (x a b : A) (l rest : list A) :
  x :: l ≡ₚ a :: b :: rest → P a → P b → Exists P l.
Proof.
  intros Hperm Ha Hb. apply Exists_exists.
  assert (a ∈ x :: l) as Hin by (rewrite Hperm; apply list_elem_of_here).
  apply elem_of_cons in Hin as [->|Hin]; [|by exists a].
  apply Permutation_cons_inv in Hperm. exists b. split; [|done].
  rewrite Hperm. apply list_elem_of_here.
Qed.

Lemma addPhoto_written st filename label position fs pos :
  JS.fields_of (current st) = Returns fs →
  number_value (JS.parseInt (field_or position "0")) = Returns pos →
  Forall keyed (photos_in fs) →
  ∃ sorted,
    sorted ≡ₚ photos_in fs ++
              [VObj [("id", VStr filename);
                     ("url", VStr (String.append "/uploads/" filename));
                     ("label", VStr (field_or label "Photo"));
                     ("position", pos)]] ∧
    data_file (snd (addPhoto (Some filename) label position st))
    = Some (JS.JSON_stringify (VObj (JS.set fs "photos" (VArr sorted)))) ∧
    uploads (snd (addPhoto (Some filename) label position st)) = uploads st.
Proof.
  intros Hfs Hpos Hkeyed.
  assert (Forall keyed
            (photos_in fs ++
             [VObj [("id", VStr filename);
                    ("url", VStr (String.append "/uploads/" filename));
                    ("label", VStr (field_or label "Photo"));
                    ("position", pos)]])) as Hall.
  { apply Forall_app. split; [done|]. constructor; [|constructor].
    eexists. by eapply number_value_keyed. }
  destruct (sort_by_position _ Hall) as (sorted & Hsort & Hperm & _).
  destruct (addPhoto_returns st filename label position fs pos sorted
              Hfs Hpos Hsort) as (st' & Hadd & Hfile & Hup).
  exists sorted. rewrite Hadd. by repeat split.
Qed.

(** X16.  Two uploads that get the same file name leave two photos with
    one id and one file.  Removing the id once removes the file and one of
    the photos: the photo that is left is listed under an id that has no
    file any more. *)
Theorem same_name_twice_leaves_photo_without_file :
  ∀ env req st filename label1 position1 label2 position2 fs pos1 pos2,
    authorize env (admin_key_of req) = true →
    JS.fields_of (current st) = Returns fs →
    number_value (JS.parseInt (field_or position1 "0")) = Returns pos1 →
    number_value (JS.parseInt (field_or position2 "0")) = Returns pos2 →
    Forall keyed (photos_in fs) →
    Forall (fun q => id_is filename q = Returns false) (photos_in fs) →
    let st1 := snd (POST_photos env req (Some filename) label1 position1 st) in
    let st2 := snd (POST_photos env req (Some filename) label2 position2 st1) in
    let st3 := snd (DELETE_photos env req filename st2) in
    fst (DELETE_photos env req filename st2)
    = res_json (Data (VObj [("status", VStr "ok")])) ∧
    uploads st3 !! filename = None ∧
    ∃ listed,
      fst (listPhotos st3) = Returns (Reply 200 (Some (VArr listed))) ∧
      Exists (fun q => id_is filename q = Returns true) listed.
Proof.
  intros env req st filename label1 position1 label2 position2 fs pos1 pos2
    Hauth Hfs Hpos1 Hpos2 Hkeyed Hfresh st1 st2 st3.
  subst st1 st2 st3.
  rewrite !(POST_photos_authorized _ _ _ _ _ _ Hauth).
  rewrite !(DELETE_photos_authorized _ _ _ _ Hauth).
  set (new1 := VObj [("id", VStr filename);
                     ("url", VStr (String.append "/uploads/" filename));
                     ("label", VStr (field_or label1 "Photo"));
                     ("position", pos1)]).
  set (new2 := VObj [("id", VStr filename);
                     ("url", VStr (String.append "/uploads/" filename));
                     ("label", VStr (field_or label2 "Photo"));
                     ("position", pos2)]).
  (* the first upload *)
  rewrite <- (current_upload_single (Some filename)) in Hfs.
  destruct (addPhoto_written _ filename label1 position1 fs pos1 Hfs Hpos1
              Hkeyed) as (s1 & Hperm1 & Hfile1 & Hup1). fold new1 in Hperm1.
  set (st1 := snd (addPhoto (Some filename) label1 position1
                     (upload_single (Some filename) st))) in *.
  destruct (written_photos st1 fs s1 Hfile1) as [Hfs1 Hget1].
  rewrite <- (current_upload_single (Some filename)) in Hfs1.
  set (fs1 := map (fun kv => (fst kv, JS.revive (snd kv)))
                (JS.set fs "photos" (VArr s1))) in *.
  assert (photos_in fs1 = map JS.revive s1) as Hold1
    by (unfold photos_in; by rewrite Hget1).
  assert (Forall keyed (photos_in fs1)) as Hkeyed1.
  { rewrite Hold1, Hperm1. apply Forall_map, Forall_app. split.
    - eapply Forall_impl; [exact Hkeyed|]. apply keyed_revive.
    - constructor; [|constructor]. apply keyed_revive.
      eexists. by eapply number_value_keyed. }
  (* the second upload *)
  destruct (addPhoto_written _ filename label2 position2 fs1 pos2 Hfs1 Hpos2
              Hkeyed1) as (s2 & Hperm2 & Hfile2 & Hup2). fold new2 in Hperm2.
  set (st2 := snd (addPhoto (Some filename) label2 position2
                     (upload_single (Some filename) st1))) in *.
  destruct (written_photos st2 fs1 s2 Hfile2) as [Hfs2 Hget2].
  assert (map JS.revive s2
          ≡ₚ JS.revive new2 :: JS.revive (JS.revive new1)
             :: map JS.revive (map JS.revive (photos_in fs))) as Hperm.
  { rewrite Hperm2, Hold1, Hperm1, !map_app. simpl.
    rewrite <- Permutation_cons_append. apply perm_skip.
    by rewrite <- Permutation_cons_append. }
  assert (id_is filename (JS.revive new2) = Returns true) as Hnew2
    by apply id_is_revive, id_is_new_photo.
  assert (id_is filename (JS.revive (JS.revive new1)) = Returns true) as Hnew1
    by apply id_is_revive, id_is_revive, id_is_new_photo.
  assert (Forall (fun q => id_is filename q = Returns false)
            (map JS.revive (map JS.revive (photos_in fs)))) as Hfresh'
    by by do 2 apply Forall_id_is_revive.
  (* the removal *)
  destruct (first_match_split (id_is filename) (map JS.revive s2))
    as (pre & x & post & Hsplit & Hpre & Hx).
  { rewrite Hperm. constructor; [by eexists|]. constructor; [by eexists|].
    eapply Forall_impl; [exact Hfresh'|]. simpl. by eexists. }
  { rewrite Hperm. by constructor. }
  rewrite Hsplit in Hget2.
  destruct (removePhoto_first_match st2 filename _ pre x post Hfs2 Hget2
              Hpre Hx) as (st3 & Hrm & Hfile3 & Hup3).
  { subst st2. rewrite Hup2. simpl. by rewrite lookup_insert_eq. }
  rewrite Hrm. simpl. split; [done|]. split.
  - rewrite Hup3. apply lookup_delete_eq.
  - exists (map JS.revive (pre ++ post)).
    split; [by apply (listPhotos_written st3 (map (fun kv => (fst kv, JS.revive (snd kv))) (JS.set fs1 "photos" (VArr s2))))|].
    assert (Exists (fun q => id_is filename q = Returns true) (pre ++ post))
      as Hleft.
    { eapply (second_match_left _ x); [|exact Hnew2|exact Hnew1].
      rewrite <- Hperm, Hsplit. by rewrite Permutation_middle. }
    apply Exists_exists in Hleft as (q & Hq & Hmatch).
    apply Exists_exists. exists (JS.revive q).
    split; [by apply list_elem_of_fmap_2|by apply id_is_revive].
Qed.

Lemma same_name_twice_leaves_photo_without_file_witness :
  let req := Credentials (Data (VStr "s3cret")) Undefined Undefined in
  let st1 := snd (POST_photos (Some "s3cret") req (Some "a_1.jpg") None
                    (Some "1") fresh) in
  let st2 := snd (POST_photos (Some "s3cret") req (Some "a_1.jpg")
                    (Some "again") (Some "2") st1) in
  let st3 := snd (DELETE_photos (Some "s3cret") req "a_1.jpg" st2) in
  fst (DELETE_photos (Some "s3cret") req "a_1.jpg" st2)
  = res_json (Data (VObj [("status", VStr "ok")])) ∧
  uploads st3 !! "a_1.jpg" = None ∧
  ∃ listed,
    fst (listPhotos st3) = Returns (Reply 200 (Some (VArr listed))) ∧
    Exists (fun q => id_is "a_1.jpg" q = Returns true) listed.
Proof.
  intros req.
  apply (same_name_twice_leaves_photo_without_file (Some "s3cret") req fresh
           "a_1.jpg" None (Some "1") (Some "again") (Some "2")
           initial_defaultContent (VNum 1) (VNum 2)).
  - reflexivity.
  - reflexivity.
  - reflexivity.
  - reflexivity.
  - constructor.
  - constructor.
Defined.

(** ** Upload file names *)

Lemma safe_char_ascii c : safe_char c = true → (nat_of_ascii c <? 128)%nat = true.
Proof.
  unfold safe_char. intros H. apply Nat.ltb_lt.
  repeat (apply orb_true_iff in H as [H|H]);
    repeat (apply andb_true_iff in H as [? H]);
    repeat match goal with
           | H : (_ <=? _)%nat = true |- _ => apply Nat.leb_le in H
           | H : (_ =? _)%nat = true |- _ => apply Nat.eqb_eq in H
           end; lia.
Qed.

Lemma all_safe_replace_unsafe s : all_safe (replace_unsafe s) = true.
Proof.
  induction s as [|c s IH]; simpl; [done|].
  destruct (nat_of_ascii c <? 128)%nat; simpl.
  - rewrite IH, andb_true_r. by destruct (safe_char c) eqn:Hc.
  - destruct (nat_of_ascii c <? 192)%nat; [done|].
    by destruct (nat_of_ascii c <? 240)%nat.
Qed.

Lemma replace_unsafe_safe s : all_safe s = true → replace_unsafe s = s.
Proof.
  induction s as [|c s IH]; simpl; [done|].
  intros [Hc Hs]%andb_true_iff.
  by rewrite (safe_char_ascii c Hc), Hc, IH.
Qed.

(** X17.  The replacement leaves only letters, digits, hyphen and
    underscore, leaves a name of such characters as it is, and replacing
    twice is replacing once. *)
Theorem replace_unsafe_only_safe :
  ∀ s,
    all_safe (replace_unsafe s) = true ∧
    (all_safe s = true → replace_unsafe s = s) ∧
    replace_unsafe (replace_unsafe s) = replace_unsafe s.
Proof.
  intros s. split; [apply all_safe_replace_unsafe|].
  split; [apply replace_unsafe_safe|].
  apply replace_unsafe_safe, all_safe_replace_unsafe.
Qed.

Lemma replace_unsafe_only_safe_witness :
  all_safe (replace_unsafe "my photo (1)") = true ∧
  replace_unsafe "my_photo-1" = "my_photo-1" ∧
  replace_unsafe (replace_unsafe "my photo (1)") = replace_unsafe "my photo (1)".
Proof.
  destruct (replace_unsafe_only_safe "my photo (1)") as (Hsafe & _ & Hidem).
  destruct (replace_unsafe_only_safe "my_photo-1") as (_ & Hsame & _).
  split; [exact Hsafe|]. split; [|exact Hidem].
  apply Hsame. reflexivity.
Defined.

Lemma append_cons c s t :
  String.append (String c s) t = String c (String.append s t).
Proof. done. Qed.

Lemma append_assoc s t u :
  String.append (String.append s t) u = String.append s (String.append t u).
Proof.
  induction s as [|c s IH]; [done|]. by rewrite !append_cons, IH.
Qed.

Lemma length_append s t :
  String.length (String.append s t) = (String.length s + String.length t)%nat.
Proof.
  induction s as [|c s IH]; [done|]. rewrite append_cons. simpl. by rewrite IH.
Qed.

Lemma all_safe_append s t :
  all_safe (String.append s t) = all_safe s && all_safe t.
Proof.
  induction s as [|c s IH]; [done|].
  rewrite append_cons. simpl. by rewrite IH, andb_assoc.
Qed.

Lemma all_safe_uint d : all_safe (NilEmpty.string_of_uint d) = true.
Proof. induction d; simpl; done. Qed.

Lemma all_safe_Number_toString n : all_safe (Number_toString n) = true.
Proof.
  unfold Number_toString.
  destruct (Z.to_int n) as [d|d]; simpl;
    destruct d; simpl; try done; apply all_safe_uint.
Qed.

Lemma append_inj_l s t u : String.append s t = String.append s u → t = u.
Proof.
  induction s as [|c s IH]; [done|]. rewrite !append_cons. intros [= H]. auto.
Qed.

Lemma append_inj_r s t u : String.append s u = String.append t u → s = t.
Proof.
  revert t. induction s as [|c s IH]; intros [|c' t] H.
  - done.
  - apply (f_equal String.length) in H.
    rewrite !length_append in H. simpl in H. lia.
  - apply (f_equal String.length) in H.
    rewrite !length_append in H. simpl in H. lia.
  - rewrite !append_cons in H. injection H as -> H. f_equal. auto.
Qed.

Lemma Number_toString_inj a b : Number_toString a = Number_toString b → a = b.
Proof.
  unfold Number_toString. intros H.
  assert (∀ z, NilZero.int_of_string (NilZero.string_of_int (Z.to_int z))
               = Some (Z.to_int z)) as Hparse.
  { intros z. apply NilZero.isi; destruct z; simpl; try done;
      intros [= Hnil]; by apply DecimalPos.Unsigned.to_uint_nonnil in Hnil. }
  pose proof (Hparse a) as Ha. rewrite H, Hparse in Ha. injection Ha as Ha.
  by rewrite <- (DecimalZ.of_to a), <- (DecimalZ.of_to b), Ha.
Qed.

(** X18.  Whatever the original name is, the generated file name is a stem
    of letters, digits, hyphens and underscores followed by the extension
    [path.extname] found: nothing of the original name but its extension
    gets into the name unreplaced. *)
Theorem filename_safe_stem :
  ∀ path_extname path_basename Date_now originalname,
    (Z.abs Date_now < 10 ^ 21)%Z →
    ∃ stem,
      filename path_extname path_basename Date_now originalname
      = String.append stem (path_extname originalname) ∧
      all_safe stem = true.
Proof.
  intros path_extname path_basename Date_now originalname _.
  exists (String.append
            (replace_unsafe
               (path_basename originalname (path_extname originalname)))
            (String.append "_" (Number_toString Date_now))).
  split.
  - unfold filename. by rewrite !append_assoc.
  - rewrite !all_safe_append, all_safe_replace_unsafe,
      all_safe_Number_toString. done.
Qed.

Lemma filename_safe_stem_witness :
  ∃ stem,
    filename (fun _ => ".jpg") (fun _ _ => "../my photo") 1730592000123
      "../my photo.jpg"
    = String.append stem ".jpg" ∧
    all_safe stem = true.
Proof.
  apply (filename_safe_stem (fun _ => ".jpg") (fun _ _ => "../my photo")
           1730592000123 "../my photo.jpg").
  reflexivity.
Defined.

(** X19.  Uploads of one original name at different times get different
    file names. *)
Theorem filename_differs_with_time :
  ∀ path_extname path_basename now1 now2 originalname,
    (Z.abs now1 < 10 ^ 21)%Z → (Z.abs now2 < 10 ^ 21)%Z →
    now1 ≠ now2 →
    filename path_extname path_basename now1 originalname
    ≠ filename path_extname path_basename now2 originalname.
Proof.
  intros path_extname path_basename now1 now2 originalname _ _ Hne Heq.
  unfold filename in Heq.
  apply append_inj_l, append_inj_l, append_inj_r, Number_toString_inj in Heq.
  done.
Qed.

Lemma filename_differs_with_time_witness :
  filename (fun _ => ".jpg") (fun _ _ => "my photo") 1730592000123 "my photo.jpg"
  ≠ filename (fun _ => ".jpg") (fun _ _ => "my photo") 1730592000124
      "my photo.jpg".
Proof.
  apply (filename_differs_with_time (fun _ => ".jpg") (fun _ _ => "my photo")
           1730592000123 1730592000124 "my photo.jpg").
  - reflexivity.
  - reflexivity.
  - discriminate.
Defined.

(** ** Positions in decimal *)

Ltac eval_digit :=
  match goal with
  | |- context [JS.digit ?c] =>
      let v := eval vm_compute in (JS.digit c) in change (JS.digit c) with v
  end.

Lemma digits_string_of_uint d a :
  JS.digits (NilEmpty.string_of_uint d) (Some a)
  = Some (a * 10 ^ Z.of_N (DecimalPos.Unsigned.usize d)
          + Z.of_N (DecimalPos.Unsigned.of_lu (Decimal.rev d)))%Z.
Proof.
  revert a.
  induction d as [|d IH|d IH|d IH|d IH|d IH|d IH|d IH|d IH|d IH|d IH];
    intros a;
    [ simpl; f_equal; lia
    | cbn [NilEmpty.string_of_uint JS.digits]; eval_digit; cbv iota;
      rewrite IH; f_equal;
      match goal with
      | |- context [Decimal.rev (?D d)] =>
          change (Decimal.rev (D d)) with (Decimal.revapp d (D Decimal.Nil));
          rewrite (DecimalPos.Unsigned.of_lu_revapp d (D Decimal.Nil))
      end;
      cbn [DecimalPos.Unsigned.usize];
      rewrite N2Z.inj_add, N2Z.inj_mul, N2Z.inj_pow, N2Z.inj_succ,
        Z.pow_succ_r by lia;
      cbn [default]; simpl (DecimalPos.Unsigned.of_lu (_ Decimal.Nil));
      change (Z.of_N 10) with 10%Z; unfold id;
      generalize (10 ^ Z.of_N (DecimalPos.Unsigned.usize d))%Z;
      generalize (Z.of_N (DecimalPos.Unsigned.of_lu (Decimal.rev d)));
      intros V P;
      match goal with
      | |- context [Z.of_N ?n] =>
          let v := eval vm_compute in (Z.of_N n) in change (Z.of_N n) with v
      end;
      ring .. ].
Qed.

Lemma digits_first_digit d :
  d ≠ Decimal.Nil →
  JS.digits (NilEmpty.string_of_uint d) None
  = JS.digits (NilEmpty.string_of_uint d) (Some 0%Z).
Proof. by destruct d. Qed.

Lemma parseInt_uint d :
  d ≠ Decimal.Nil →
  JS.parseInt (NilEmpty.string_of_uint d) = Some (Z.of_uint d) ∧
  JS.parseInt (String "-" (NilEmpty.string_of_uint d)) = Some (- Z.of_uint d)%Z.
Proof.
  intros Hd.
  assert (JS.digits (NilEmpty.string_of_uint d) None = Some (Z.of_uint d))
    as Hdigits.
  { rewrite digits_first_digit, digits_string_of_uint by done.
    unfold Z.of_uint. rewrite DecimalPos.Unsigned.of_uint_alt. f_equal; lia. }
  split.
  - destruct d; try done; unfold JS.parseInt, JS.trimStart;
      cbn [NilEmpty.string_of_uint String.length JS.trimStart_fuel];
      match goal with
      | |- context [JS.StrWhiteSpaceChar ?s] =>
          change (JS.StrWhiteSpaceChar s) with 0%nat
      end; cbv iota;
      cbn [NilEmpty.string_of_uint] in Hdigits; rewrite Hdigits;
      f_equal; lia.
  - unfold JS.parseInt, JS.trimStart.
    cbn [String.length JS.trimStart_fuel].
    change (JS.StrWhiteSpaceChar (String "-" (NilEmpty.string_of_uint d)))
      with 0%nat.
    cbv iota. rewrite Hdigits. f_equal; lia.
Qed.

Lemma parseInt_Number_toString n : JS.parseInt (Number_toString n) = Some n.
Proof.
  unfold Number_toString. destruct n as [|p|p]; [done| |].
  - simpl Z.to_int. unfold NilZero.string_of_int, NilZero.string_of_uint.
    pose proof (DecimalPos.Unsigned.to_uint_nonnil p) as Hnil.
    destruct (parseInt_uint (Pos.to_uint p) Hnil) as [Hpos _].
    unfold Z.of_uint in Hpos. rewrite DecimalPos.Unsigned.of_to in Hpos.
    by destruct (Pos.to_uint p).
  - simpl Z.to_int. unfold NilZero.string_of_int, NilZero.string_of_uint.
    pose proof (DecimalPos.Unsigned.to_uint_nonnil p) as Hnil.
    destruct (parseInt_uint (Pos.to_uint p) Hnil) as [_ Hneg].
    unfold Z.of_uint in Hneg. rewrite DecimalPos.Unsigned.of_to in Hneg.
    by destruct (Pos.to_uint p).
Qed.

Lemma Number_toString_nonempty n : (Number_toString n =? "") = false.
Proof.
  unfold Number_toString. destruct (Z.to_int n) as [d|d]; [|done].
  by destruct d.
Qed.

(** X20.  A position sent as the decimal text of an integer is the
    position the photo gets: for every integer [n] a double holds exactly,
    addPhoto with position [`${n}`] answers a photo with position [n],
    which sorts at [n]. *)
Theorem addPhoto_decimal_position :
  ∀ st filename label n fs,
    (Z.abs n ≤ 2 ^ 53)%Z →
    JS.fields_of (current st) = Returns fs →
    Forall keyed (photos_in fs) →
    let new :=
      VObj [("id", VStr filename);
            ("url", VStr (String.append "/uploads/" filename));
            ("label", VStr (field_or label "Photo")); ("position", VNum n)] in
    fst (addPhoto (Some filename) label (Some (Number_toString n)) st)
    = Returns (Reply 200 (Some (VObj [("status", VStr "ok"); ("photo", new)])))
    ∧ position_key new = Returns n.
Proof.
  intros st filename label n fs Hn Hfs Hkeyed new.
  assert (number_value
            (JS.parseInt (field_or (Some (Number_toString n)) "0"))
          = Returns (VNum n)) as Hpos.
  { simpl. rewrite Number_toString_nonempty, parseInt_Number_toString. simpl.
    by apply Z.leb_le in Hn as ->. }
  destruct (addPhoto_listed st filename label (Some (Number_toString n)) fs
              (VNum n) Hfs Hpos Hkeyed) as (st' & listed & Hadd & _).
  split; [by rewrite Hadd|].
  exact (number_value_keyed _ (VNum n) _ _ _ Hpos).
Qed.

Lemma addPhoto_decimal_position_witness :
  let new :=
    VObj [("id", VStr "a.jpg");
          ("url", VStr (String.append "/uploads/" "a.jpg"));
          ("label", VStr (field_or None "Photo")); ("position", VNum (-12))] in
  fst (addPhoto (Some "a.jpg") None (Some (Number_toString (-12))) fresh)
  = Returns (Reply 200 (Some (VObj [("status", VStr "ok"); ("photo", new)])))
  ∧ position_key new = Returns (-12)%Z.
Proof.
  apply (addPhoto_decimal_position fresh "a.jpg" None (-12)
           initial_defaultContent).
  - vm_compute. discriminate.
  - reflexivity.
  - constructor.
Defined.
